(** * StepFilter: a shallow embedding of
      traversability_estimation_filters/src/StepFilter.cpp

    The filter reads the [elevation] layer of a grid map, computes an
    auxiliary [step_height] layer (first loop of [update]) and from it the
    traversability layer named by [type_] (second loop of [update]).

    Conventions of the embedding:
    - a [double] is an exact rational ([Q]); a value that is not finite
      (the not-a-number sentinel that grid_map uses for "no data", and the
      infinity that the division of line 166 gives for a divisor 0) is the
      constructor [NaN], so a cell is valid ([isValid]) exactly when it
      holds [Val q].  Rounding and overflow of binary64 are outside the
      model;
    - an [int] is a [Z]; the only integer operations are a counter that is
      bounded by the number of cells of a window, and one truncating
      division ([Z.quot]);
    - a C++ exception ([std::out_of_range] of [GridMap::at] on a layer that
      does not exist) and the integer division by zero are the result
      [None]. *)

From Stdlib Require Import QArith Qabs ZArith Lia Lqa.
From stdpp Require Import base option list gmap strings.

Local Open Scope Q_scope.
Local Open Scope string_scope.

(** ** The raster container *)

Inductive value : Type :=
| NaN
| Val (q : Q).

Definition isfinite (v : value) : bool :=
  match v with
  | NaN => false
  | Val _ => true
  end.

Definition Position : Type := (Q * Q)%type.

(** Modelled from the spec: the raster container (grid_map's GridMap) is
    not part of the sources.  It is a grid of [size_] cells addressed by a
    linear index, with a position for every cell, a disc-shaped window
    iteration around a position ([circle_], the cells visited by
    CircleIterator, in visiting order) and named scalar layers (a layer
    holds one value per cell). *)
Record GridMap : Type := mkGridMap {
  size_ : nat;
  position_ : nat -> Position;
  circle_ : Position -> Q -> list nat;
  data_ : gmap string (list value)
}.

Definition setData (m : GridMap) (d : gmap string (list value)) : GridMap :=
  {| size_ := size_ m; position_ := position_ m; circle_ := circle_ m;
     data_ := d |}.

(** Modelled from the spec: add-layer creates the layer with every cell
    invalid, replacing the data of a layer of that name. *)
Definition add (m : GridMap) (layer : string) : GridMap :=
  setData m (<[layer := replicate (size_ m) NaN]> (data_ m)).

(** Modelled from the spec: remove-layer. *)
Definition erase (m : GridMap) (layer : string) : GridMap :=
  setData m (delete layer (data_ m)).

(** Modelled from the spec: get-layer-value; reading a layer that does not
    exist throws. *)
Definition at_ (m : GridMap) (layer : string) (index : nat) : option value :=
  match data_ m !! layer with
  | Some l => Some (default NaN (l !! index))
  | None => None
  end.

(** Modelled from the spec: set-layer-value. *)
Definition setAt (m : GridMap) (layer : string) (index : nat) (v : value)
  : option GridMap :=
  match data_ m !! layer with
  | Some l => Some (setData m (<[layer := <[index := v]> l]> (data_ m)))
  | None => None
  end.

Definition isValid (m : GridMap) (index : nat) (layer : string) : option bool :=
  match at_ m layer index with
  | Some v => Some (isfinite v)
  | None => None
  end.

Definition getPosition (m : GridMap) (index : nat) : Position :=
  position_ m index.

(** GridMapIterator: every cell once, in index order. *)
Definition GridMapIterator (m : GridMap) : list nat := seq 0 (size_ m).

Definition CircleIterator (m : GridMap) (center : Position) (radius : Q)
  : list nat :=
  circle_ m center radius.

(** ** The parameter source *)

Inductive XmlRpcValue : Type :=
| TypeDouble (d : Q)
| TypeInt (i : Z)
| TypeString (s : string).

(** Modelled from the spec: the key-value parameter provider
    (FilterBase::getParam).  A lookup fails when the key is absent or holds
    a value of another type; a double parameter accepts an integer. *)
Definition getParamDouble (params : gmap string XmlRpcValue) (name : string)
  : option Q :=
  match params !! name with
  | Some (TypeDouble d) => Some d
  | Some (TypeInt i) => Some (inject_Z i)
  | _ => None
  end.

Definition getParamInt (params : gmap string XmlRpcValue) (name : string)
  : option Z :=
  match params !! name with
  | Some (TypeInt i) => Some i
  | _ => None
  end.

Definition getParamString (params : gmap string XmlRpcValue) (name : string)
  : option string :=
  match params !! name with
  | Some (TypeString s) => Some s
  | _ => None
  end.

(** ** The filter *)

Record StepFilter : Type := mkStepFilter {
  criticalValue_ : Q;
  firstWindowRadius_ : Q;
  secondWindowRadius_ : Q;
  nCellCritical_ : Z;
  type_ : string
}.

(** StepFilter::StepFilter() *)
Definition StepFilter_new : StepFilter :=
  {| criticalValue_ := 3 # 10;
     firstWindowRadius_ := 8 # 100;
     secondWindowRadius_ := 8 # 100;
     nCellCritical_ := 5;
     type_ := "traversability_step" |}.

Definition set_criticalValue (f : StepFilter) (v : Q) : StepFilter :=
  {| criticalValue_ := v;
     firstWindowRadius_ := firstWindowRadius_ f;
     secondWindowRadius_ := secondWindowRadius_ f;
     nCellCritical_ := nCellCritical_ f;
     type_ := type_ f |}.

Definition set_firstWindowRadius (f : StepFilter) (v : Q) : StepFilter :=
  {| criticalValue_ := criticalValue_ f;
     firstWindowRadius_ := v;
     secondWindowRadius_ := secondWindowRadius_ f;
     nCellCritical_ := nCellCritical_ f;
     type_ := type_ f |}.

Definition set_secondWindowRadius (f : StepFilter) (v : Q) : StepFilter :=
  {| criticalValue_ := criticalValue_ f;
     firstWindowRadius_ := firstWindowRadius_ f;
     secondWindowRadius_ := v;
     nCellCritical_ := nCellCritical_ f;
     type_ := type_ f |}.

Definition set_nCellCritical (f : StepFilter) (v : Z) : StepFilter :=
  {| criticalValue_ := criticalValue_ f;
     firstWindowRadius_ := firstWindowRadius_ f;
     secondWindowRadius_ := secondWindowRadius_ f;
     nCellCritical_ := v;
     type_ := type_ f |}.

Definition set_type (f : StepFilter) (v : string) : StepFilter :=
  {| criticalValue_ := criticalValue_ f;
     firstWindowRadius_ := firstWindowRadius_ f;
     secondWindowRadius_ := secondWindowRadius_ f;
     nCellCritical_ := nCellCritical_ f;
     type_ := v |}.

(** StepFilter::configure().  [getParam] writes the member it is given
    before the range check that follows it; the result pairs the returned
    bool with the filter as the call leaves it. *)
Definition configure (params : gmap string XmlRpcValue) (f : StepFilter)
  : bool * StepFilter :=
  match getParamDouble params "critical_value" with
  | None => (false, f)
  | Some cv =>
    let f := set_criticalValue f cv in
    if Qlt_le_dec (criticalValue_ f) 0 then (false, f) else
    match getParamDouble params "first_window_radius" with
    | None => (false, f)
    | Some r1 =>
      let f := set_firstWindowRadius f r1 in
      if Qlt_le_dec (firstWindowRadius_ f) 0 then (false, f) else
      match getParamDouble params "second_window_radius" with
      | None => (false, f)
      | Some r2 =>
        let f := set_secondWindowRadius f r2 in
        if Qlt_le_dec (secondWindowRadius_ f) 0 then (false, f) else
        match getParamInt params "critical_cell_number" with
        | None => (false, f)
        | Some n =>
          let f := set_nCellCritical f n in
          if (nCellCritical_ f <=? 0)%Z then (false, f) else
          match getParamString params "map_type" with
          | None => (false, f)
          | Some t => (true, set_type f t)
          end
        end
      end
    end
  end.

(** std::min(a, b): [b] when [b < a], otherwise [a]. *)
Definition std_min (a b : Q) : Q := if Qlt_le_dec b a then b else a.

(** A loop over cell indices whose body may throw. *)
Fixpoint forCells (body : GridMap -> nat -> option GridMap)
    (cells : list nat) (m : GridMap) : option GridMap :=
  match cells with
  | [] => Some m
  | c :: rest =>
    match body m c with
    | Some m' => forCells body rest m'
    | None => None
    end
  end.

(** The circular window of the first loop (lines 121-129): the running
    [stepMax].  The cell counter of that loop is only read by a log call
    that is commented out, and is left out. *)
Fixpoint firstWindow (m : GridMap) (height : Q) (cells : list nat)
    (stepMax : Q) : option Q :=
  match cells with
  | [] => Some stepMax
  | c :: rest =>
    match at_ m "elevation" c with
    | None => None
    | Some NaN => firstWindow m height rest stepMax
    | Some (Val e) =>
      let step := Qabs (height - e) in
      firstWindow m height rest
        (if Qlt_le_dec stepMax step then step else stepMax)
    end
  end.

(** Body of the first loop (lines 110-133). *)
Definition stepHeightCell (f : StepFilter) (m : GridMap) (c : nat)
  : option GridMap :=
  match at_ m "elevation" c with
  | None => None
  | Some NaN => Some m
  | Some (Val height) =>
    let center := getPosition m c in
    match firstWindow m height
            (CircleIterator m center (firstWindowRadius_ f)) 0 with
    | None => None
    | Some stepMax =>
      if Qlt_le_dec 0 stepMax
      then setAt m "step_height" c (Val stepMax)
      else Some m
    end
  end.

(** The locals of the second loop; [sawValid] is the local [isValid]. *)
Record scan : Type := mkScan {
  nCells : Z;
  stepMax : Q;
  sawValid : bool
}.

Definition scan0 : scan := {| nCells := 0; stepMax := 0; sawValid := false |}.

(** One round of the circular window of the second loop (lines 149-158),
    on the value read from [step_height]. *)
Definition scanStep (criticalValue : Q) (s : scan) (v : value) : scan :=
  match v with
  | NaN => s
  | Val x =>
    if Qlt_le_dec (stepMax s) x
    then {| nCells := if Qlt_le_dec criticalValue x
                      then (nCells s + 1)%Z else nCells s;
            stepMax := x;
            sawValid := true |}
    else {| nCells := nCells s; stepMax := stepMax s; sawValid := true |}
  end.

(** The circular window of the second loop (lines 147-159). *)
Fixpoint secondWindow (criticalValue : Q) (m : GridMap) (cells : list nat)
    (s : scan) : option scan :=
  match cells with
  | [] => Some s
  | c :: rest =>
    match at_ m "step_height" c with
    | None => None
    | Some v => secondWindow criticalValue m rest (scanStep criticalValue s v)
    end
  end.

(** Lines 163-169: the value written for a window with a valid sample. *)
Definition dampened (f : StepFilter) (s : scan) : Q :=
  std_min (stepMax s)
          (inject_Z (Z.quot (nCells s) (nCellCritical_ f)) * stepMax s).

Definition cost (f : StepFilter) (s : scan) : Q :=
  let step := dampened f s in
  if Qlt_le_dec step (criticalValue_ f)
  then 1 - step / criticalValue_ f
  else 0.

(** The cell that lines 165-169 write: [cost], but for the division of
    line 166 by a critical value 0, which gives [1.0 - step / 0.0] with
    [step < 0], an infinite value. *)
Definition written (f : StepFilter) (s : scan) : value :=
  if Qlt_le_dec (dampened f s) (criticalValue_ f)
  then if Qeq_dec (criticalValue_ f) 0 then NaN else Val (cost f s)
  else Val (cost f s).

(** Body of the second loop (lines 138-170). *)
Definition costCell (f : StepFilter) (m : GridMap) (c : nat)
  : option GridMap :=
  let center := getPosition m c in
  match secondWindow (criticalValue_ f) m
          (CircleIterator m center (secondWindowRadius_ f)) scan0 with
  | None => None
  | Some s =>
    if sawValid s
    then if (nCellCritical_ f =? 0)%Z then None
         else setAt m (type_ f) c (written f s)
    else Some m
  end.

(** The two loops of [update], each on the map it is given. *)
Definition stepHeightPass (f : StepFilter) (m : GridMap) : option GridMap :=
  forCells (stepHeightCell f) (GridMapIterator m) m.

Definition costPass (f : StepFilter) (m : GridMap) : option GridMap :=
  forCells (costCell f) (GridMapIterator m) m.

(** The map as the loops of [update] receive it (lines 102-104). *)
Definition prepare (f : StepFilter) (mapIn : GridMap) : GridMap :=
  add (add mapIn (type_ f)) "step_height".

(** StepFilter::update(mapIn, mapOut): the returned [mapOut] ([update]
    returns [true] whenever it returns). *)
Definition update (f : StepFilter) (mapIn : GridMap) : option GridMap :=
  match stepHeightPass f (prepare f mapIn) with
  | None => None
  | Some m1 =>
    match costPass f m1 with
    | None => None
    | Some m2 => Some (erase m2 "step_height")
    end
  end.

(** ** A concrete raster for examples *)

(** Modelled from the spec: a raster of [rows] x [cols] square cells of
    side 1 whose disc window holds the cells whose centre lies within the
    radius of the query position, visited in index order. *)
Definition gridPosition (cols : nat) (index : nat) : Position :=
  (inject_Z (Z.of_nat (index / cols)), inject_Z (Z.of_nat (index mod cols))).

Definition insideCircle (center : Position) (radius : Q) (p : Position)
  : bool :=
  Qle_bool ((fst p - fst center) * (fst p - fst center)
            + (snd p - snd center) * (snd p - snd center))
           (radius * radius).

Definition squareGrid (rows cols : nat) (d : gmap string (list value))
  : GridMap :=
  {| size_ := rows * cols;
     position_ := gridPosition cols;
     circle_ := fun center radius =>
       List.filter (fun i => insideCircle center radius (gridPosition cols i))
                   (seq 0 (rows * cols));
     data_ := d |}.

(** ** Definitions used to state the properties *)

(** [m] is [m0] but for the values of layer [L], which both have. *)
Definition related (L : string) (m0 m : GridMap) : Prop :=
  size_ m = size_ m0 /\ position_ m = position_ m0 /\ circle_ m = circle_ m0 /\
  (forall K, K <> L -> data_ m !! K = data_ m0 !! K) /\
  exists l : list value, data_ m !! L = Some l /\ length l = size_ m0.

(** [m'] has the geometry and the layer names of [m], and the values of
    [m] in every layer but [L]. *)
Definition frame (L : string) (m m' : GridMap) : Prop :=
  size_ m' = size_ m /\ position_ m' = position_ m /\
  circle_ m' = circle_ m /\
  dom (data_ m') = dom (data_ m) /\
  forall K, K <> L -> data_ m' !! K = data_ m !! K.

(** What the body of the first loop decides for cell [c], from the
    elevation of [m]: the value it writes, if it writes. *)
Definition stepHeightDec (f : StepFilter) (m : GridMap) (c : nat)
  : option value :=
  match at_ m "elevation" c with
  | Some (Val height) =>
    match firstWindow m height
            (CircleIterator m (getPosition m c) (firstWindowRadius_ f)) 0 with
    | Some stepMax =>
      if Qlt_le_dec 0 stepMax then Some (Val stepMax) else None
    | None => None
    end
  | _ => None
  end.

(** What the body of the second loop decides for cell [c], from the
    [step_height] layer of [m]. *)
Definition costDec (f : StepFilter) (m : GridMap) (c : nat) : option value :=
  match secondWindow (criticalValue_ f) m
          (CircleIterator m (getPosition m c) (secondWindowRadius_ f))
          scan0 with
  | Some s => if sawValid s then Some (written f s) else None
  | None => None
  end.


(** ** Example inputs *)

(** A parameter source with the five keys. *)
Definition exampleParams (cv r1 r2 : Q) (n : Z) (t : string)
  : gmap string XmlRpcValue :=
  {[ "critical_value" := TypeDouble cv;
     "first_window_radius" := TypeDouble r1;
     "second_window_radius" := TypeDouble r2;
     "critical_cell_number" := TypeInt n;
     "map_type" := TypeString t ]}.

(** Critical value 0.3, both radii 1 (a cell and its direct neighbours),
    and the critical cell number [n]. *)
Definition exampleFilter (n : Z) : StepFilter :=
  mkStepFilter (3 # 10) 1 1 n "traversability_step".

(** A row of cells with the given elevations. *)
Definition rowMap (elevation : list value) : GridMap :=
  squareGrid 1 (length elevation) {[ "elevation" := elevation ]}.

(** A row of three cells after the first loop: no data, then a step of 1
    between the second and the third cell. *)
Definition steppedRow : GridMap :=
  squareGrid 1 3
    {[ "elevation" := [NaN; Val 0; Val 1];
       "step_height" := [NaN; Val 1; Val 1];
       "traversability_step" := [NaN; NaN; NaN] ]}.

(** A row whose [step_height] layer holds two equal critical values and a
    smaller one. *)
Definition plateauRow : GridMap :=
  squareGrid 1 3
    {[ "step_height" := [Val (1 # 2); Val (1 # 2); Val (2 # 5)] ]}.



(** The cell of [step_height] after the first loop of [update]. *)
Definition stepHeightAt (f : StepFilter) (mapIn : GridMap) (c : nat)
  : option value :=
  match stepHeightPass f (prepare f mapIn) with
  | Some m1 => at_ m1 "step_height" c
  | None => None
  end.

(** The cell of the output layer of [update], when [update] returns. *)
Definition outputAt (f : StepFilter) (mapIn : GridMap) (c : nat)
  : option value :=
  match update f mapIn with
  | Some mapOut => at_ mapOut (type_ f) c
  | None => None
  end.

(** ** Definitions for the further properties *)

(** Two values are the same up to the representation of the rational. *)
Definition veq (v w : value) : Prop :=
  match v, w with
  | NaN, NaN => True
  | Val a, Val b => (a == b)%Q
  | _, _ => False
  end.

(** [w] is [v] in a unit [k] times smaller. *)
Definition vscaled (k : Q) (v w : value) : Prop :=
  match v, w with
  | NaN, NaN => True
  | Val a, Val b => (b == k * a)%Q
  | _, _ => False
  end.

(** Two scans agree up to the unit: same counter, same flag, maximum
    scaled by [k]. *)
Definition scanScaled (k : Q) (s t : scan) : Prop :=
  nCells s = nCells t /\ sawValid s = sawValid t /\
  (stepMax t == k * stepMax s)%Q.

(** Two rasters of the same geometry whose elevation layers are valid in
    the same cells, the step between any two valid cells of the second
    being [k] times the step between them in the first. *)
Definition scaledSteps (k : Q) (m m' : GridMap) : Prop :=
  size_ m' = size_ m /\ position_ m' = position_ m /\
  circle_ m' = circle_ m /\
  (forall c,
     match at_ m "elevation" c, at_ m' "elevation" c with
     | Some NaN, Some NaN => True
     | Some (Val _), Some (Val _) => True
     | _, _ => False
     end) /\
  (forall c c' h e h' e',
     at_ m "elevation" c = Some (Val h) ->
     at_ m "elevation" c' = Some (Val e) ->
     at_ m' "elevation" c = Some (Val h') ->
     at_ m' "elevation" c' = Some (Val e') ->
     (Qabs (h' - e') == k * Qabs (h - e))%Q).

(** The same, with the same steps. *)
Definition sameSteps (m m' : GridMap) : Prop := scaledSteps 1 m m'.

(** Two filters that differ in the critical value only, the second having
    [k] times the critical value of the first. *)
Definition scaledFilter (k : Q) (f f' : StepFilter) : Prop :=
  firstWindowRadius_ f' = firstWindowRadius_ f /\
  secondWindowRadius_ f' = secondWindowRadius_ f /\
  nCellCritical_ f' = nCellCritical_ f /\
  type_ f' = type_ f /\
  (criticalValue_ f' == k * criticalValue_ f)%Q.

(** A filter that names its output layer [elevation]. *)
Definition elevationFilter : StepFilter :=
  mkStepFilter (3 # 10) 1 1 5 "elevation".

(** A raster of one cell that has no elevation layer. *)
Definition noElevationMap : GridMap :=
  squareGrid 1 1 {[ "colour" := [Val 1] ]}.

(** A row with a [step_height] layer of its own. *)
Definition rowWithStepHeight : GridMap :=
  squareGrid 1 2 {[ "elevation" := [Val 0; Val 1];
                    "step_height" := [Val 9; Val 9] ]}.

(** * Properties *)

(** ** Loops that write one layer *)

Lemma related_at L m0 m K c :
  related L m0 m -> K <> L -> at_ m K c = at_ m0 K c.
Proof.
  intros (_ & _ & _ & HK & _) Hne. unfold at_. now rewrite (HK K Hne).
Qed.

Lemma setAt_related L m0 m c v :
  related L m0 m ->
  exists m', setAt m L c v = Some m' /\ related L m0 m' /\
    (forall c', c' <> c -> at_ m' L c' = at_ m L c') /\
    ((c < size_ m0)%nat -> at_ m' L c = Some v).
Proof.
  intros (Hs & Hp & Hc & HK & l & Hl & Hlen).
  unfold setAt. rewrite Hl. eexists. split; [reflexivity|].
  split; [|split].
  - repeat split; simpl; try assumption.
    + intros K Hne. rewrite lookup_insert_ne by congruence. now apply HK.
    + exists (<[c:=v]> l). rewrite lookup_insert_eq, length_insert. auto.
  - intros c' Hne. unfold at_. simpl. rewrite lookup_insert_eq, Hl.
    rewrite list_lookup_insert_ne by congruence. reflexivity.
  - intros Hlt. unfold at_. simpl. rewrite lookup_insert_eq.
    rewrite list_lookup_insert_eq by lia. reflexivity.
Qed.

Section LayerLoop.
Variable L : string.
Variable body : GridMap -> nat -> option GridMap.
Variable dec : nat -> option value.
Variable m0 : GridMap.

Hypothesis body_dec : forall m c, related L m0 m ->
  body m c = match dec c with
             | Some v => setAt m L c v
             | None => Some m
             end.

Lemma forCells_layer cells : forall m,
  related L m0 m -> NoDup cells ->
  (forall c, c ∈ cells -> (c < size_ m0)%nat) ->
  exists m', forCells body cells m = Some m' /\ related L m0 m' /\
    forall c, at_ m' L c =
      match (if decide (c ∈ cells) then dec c else None) with
      | Some v => Some v
      | None => at_ m L c
      end.
Proof.
  induction cells as [|a cells IH]; intros m Hrel Hnd Hin.
  - exists m. simpl. split; [reflexivity|]. split; [exact Hrel|].
    intros c. destruct (decide (c ∈ [])) as [H|_]; [inversion H|reflexivity].
  - apply NoDup_cons in Hnd as [Ha Hnd].
    simpl. rewrite (body_dec m a Hrel).
    assert (Hstep : exists m1,
               match dec a with
               | Some v => setAt m L a v
               | None => Some m
               end = Some m1 /\ related L m0 m1 /\
               (forall c', c' <> a -> at_ m1 L c' = at_ m L c') /\
               at_ m1 L a = match dec a with
                            | Some v => Some v
                            | None => at_ m L a
                            end).
    { destruct (dec a) as [v|].
      - destruct (setAt_related L m0 m a v Hrel) as (m1 & E & R & O & S).
        exists m1. split; [exact E|]. split; [exact R|].
        split; [exact O|]. apply S, Hin. left.
      - exists m. split; [reflexivity|]. split; [exact Hrel|].
        split; reflexivity. }
    destruct Hstep as (m1 & E & R & O & S). rewrite E.
    destruct (IH m1 R Hnd) as (m' & E' & R' & V).
    { intros c Hc. apply Hin. now right. }
    exists m'. split; [assumption|]. split; [assumption|].
    intros c. rewrite V.
    destruct (decide (c ∈ cells)) as [Hc|Hc].
    + rewrite decide_True by now right.
      destruct (dec c); [reflexivity|].
      apply O. intros ->. contradiction.
    + destruct (decide (c = a)) as [->|Hne].
      * rewrite decide_True by left. exact S.
      * rewrite decide_False.
        -- now apply O.
        -- intros H. apply elem_of_cons in H as [?|?]; contradiction.
Qed.
End LayerLoop.

Lemma related_refl L m (l : list value) :
  data_ m !! L = Some l -> length l = size_ m -> related L m m.
Proof.
  intros Hl Hlen. repeat split. exists l. auto.
Qed.

Lemma elem_of_GridMapIterator m c :
  c ∈ GridMapIterator m <-> (c < size_ m)%nat.
Proof.
  unfold GridMapIterator. rewrite list_elem_of_In, in_seq. lia.
Qed.

Lemma NoDup_GridMapIterator m : NoDup (GridMapIterator m).
Proof. apply NoDup_ListNoDup, List.seq_NoDup. Qed.

(** ** The first loop *)

Lemma firstWindow_congr m m' height cells : forall sm,
  data_ m' !! "elevation" = data_ m !! "elevation" ->
  firstWindow m' height cells sm = firstWindow m height cells sm.
Proof.
  induction cells as [|c cells IH]; intros sm He; simpl; [reflexivity|].
  unfold at_. rewrite He.
  destruct (data_ m !! "elevation") as [l|]; [|reflexivity].
  destruct (default NaN (l !! c)); now rewrite IH.
Qed.

Lemma firstWindow_total m height cells : forall sm,
  is_Some (data_ m !! "elevation") ->
  is_Some (firstWindow m height cells sm).
Proof.
  induction cells as [|c cells IH]; intros sm He; simpl; [eauto|].
  unfold at_. destruct He as [l Hl]. rewrite Hl.
  destruct (default NaN (l !! c)); apply IH; eauto.
Qed.

(** The window scan returns the largest of the start value and the steps
    to the valid cells of the window. *)
Lemma firstWindow_max m height cells : forall sm0 sm,
  firstWindow m height cells sm0 = Some sm ->
  (sm0 <= sm)%Q /\
  (forall c' e, c' ∈ cells -> at_ m "elevation" c' = Some (Val e) ->
     (Qabs (height - e) <= sm)%Q) /\
  (sm = sm0 \/
   exists c' e, c' ∈ cells /\ at_ m "elevation" c' = Some (Val e) /\
     sm = Qabs (height - e)).
Proof.
  induction cells as [|c cells IH]; intros sm0 sm H; cbn [firstWindow] in H.
  - inversion H; subst. split; [lra|]. split; [|now left].
    intros c' e Hin. inversion Hin.
  - destruct (at_ m "elevation" c) as [[|e0]|] eqn:Hc; [| |discriminate].
    + destruct (IH _ _ H) as (Hle & Hub & Hatt).
      split; [assumption|]. split.
      * intros c' e Hin He. apply elem_of_cons in Hin as [->|Hin].
        -- congruence.
        -- eapply Hub; eauto.
      * destruct Hatt as [->|(c' & e & Hin & He & ->)]; [now left|].
        right. exists c', e. split; [now right|]. auto.
    + destruct (Qlt_le_dec sm0 (Qabs (height - e0))) as [Hlt|Hge];
        destruct (IH _ _ H) as (Hle & Hub & Hatt).
      * split; [lra|]. split.
        -- intros c' e Hin He. apply elem_of_cons in Hin as [->|Hin].
           ++ rewrite Hc in He. inversion He; subst. exact Hle.
           ++ eapply Hub; eauto.
        -- right. destruct Hatt as [->|(c' & e & Hin & He & ->)].
           ++ exists c, e0. split; [left|]. auto.
           ++ exists c', e. split; [now right|]. auto.
      * split; [assumption|]. split.
        -- intros c' e Hin He. apply elem_of_cons in Hin as [->|Hin].
           ++ rewrite Hc in He. inversion He; subst. lra.
           ++ eapply Hub; eauto.
        -- destruct Hatt as [->|(c' & e & Hin & He & ->)]; [now left|].
           right. exists c', e. split; [now right|]. auto.
Qed.

Lemma stepHeightCell_dec f m0 m c :
  "elevation" <> "step_height" ->
  is_Some (data_ m0 !! "elevation") ->
  related "step_height" m0 m ->
  stepHeightCell f m c =
    match stepHeightDec f m0 c with
    | Some v => setAt m "step_height" c v
    | None => Some m
    end.
Proof.
  intros Hne He Hrel.
  unfold stepHeightCell, stepHeightDec, getPosition, CircleIterator.
  rewrite (related_at _ _ _ _ c Hrel Hne).
  destruct Hrel as (Hs & Hp & Hc & HK & _).
  rewrite Hp, Hc.
  destruct He as [l Hl].
  unfold at_. rewrite Hl.
  destruct (default NaN (l !! c)) as [|height]; [reflexivity|].
  rewrite (firstWindow_congr m0 m) by (now apply HK).
  destruct (firstWindow_total m0 height
              (circle_ m0 (position_ m0 c) (firstWindowRadius_ f)) 0)
    as [sm Hsm]; [eauto|].
  rewrite Hsm. destruct (Qlt_le_dec 0 sm); reflexivity.
Qed.

Lemma stepHeightPass_spec f m0 (l : list value) :
  is_Some (data_ m0 !! "elevation") ->
  data_ m0 !! "step_height" = Some l -> length l = size_ m0 ->
  exists m1, stepHeightPass f m0 = Some m1 /\
    related "step_height" m0 m1 /\
    forall c, (c < size_ m0)%nat ->
      at_ m1 "step_height" c =
        match stepHeightDec f m0 c with
        | Some v => Some v
        | None => at_ m0 "step_height" c
        end.
Proof.
  intros He Hl Hlen.
  destruct (forCells_layer "step_height" (stepHeightCell f)
              (stepHeightDec f m0) m0) with (cells := GridMapIterator m0)
              (m := m0)
    as (m1 & E & R & V).
  - intros m c Hrel. apply stepHeightCell_dec; [discriminate|assumption..].
  - eapply related_refl; eauto.
  - apply NoDup_GridMapIterator.
  - intros c. apply elem_of_GridMapIterator.
  - exists m1. split; [exact E|]. split; [exact R|].
    intros c Hc. rewrite V.
    rewrite decide_True by (now apply elem_of_GridMapIterator).
    reflexivity.
Qed.

(** ** The second loop *)

Lemma secondWindow_congr crit m m' cells : forall s,
  data_ m' !! "step_height" = data_ m !! "step_height" ->
  secondWindow crit m' cells s = secondWindow crit m cells s.
Proof.
  induction cells as [|c cells IH]; intros s He; simpl; [reflexivity|].
  unfold at_. rewrite He.
  destruct (data_ m !! "step_height") as [l|]; [|reflexivity].
  now rewrite IH.
Qed.

Lemma secondWindow_total crit m cells : forall s,
  is_Some (data_ m !! "step_height") ->
  is_Some (secondWindow crit m cells s).
Proof.
  induction cells as [|c cells IH]; intros s He; simpl; [eauto|].
  unfold at_. destruct He as [l Hl]. rewrite Hl. apply IH. eauto.
Qed.

Lemma secondWindow_app crit m cells1 cells2 : forall s,
  secondWindow crit m (cells1 ++ cells2) s =
    match secondWindow crit m cells1 s with
    | Some s1 => secondWindow crit m cells2 s1
    | None => None
    end.
Proof.
  induction cells1 as [|c cells1 IH]; intros s; simpl; [reflexivity|].
  destruct (at_ m "step_height" c); [apply IH|reflexivity].
Qed.

Lemma scanStep_stepMax crit s v :
  (stepMax s <= stepMax (scanStep crit s v))%Q.
Proof.
  destruct v as [|x]; simpl; [lra|].
  destruct (Qlt_le_dec (stepMax s) x); simpl; lra.
Qed.

Lemma scanStep_nCells crit s v :
  (nCells s <= nCells (scanStep crit s v))%Z.
Proof.
  destruct v as [|x]; simpl; [lia|].
  destruct (Qlt_le_dec (stepMax s) x); simpl; [|lia].
  destruct (Qlt_le_dec crit x); lia.
Qed.

(** The scan keeps the largest valid value seen (or the start value), and
    [sawValid] records whether there was a valid one. *)
Lemma secondWindow_max crit m cells : forall s0 s,
  secondWindow crit m cells s0 = Some s ->
  (stepMax s0 <= stepMax s)%Q /\ (nCells s0 <= nCells s)%Z /\
  (forall c' x, c' ∈ cells -> at_ m "step_height" c' = Some (Val x) ->
     (x <= stepMax s)%Q) /\
  (stepMax s = stepMax s0 \/
   exists c', c' ∈ cells /\ at_ m "step_height" c' = Some (Val (stepMax s))) /\
  (sawValid s = true <->
   sawValid s0 = true \/
   exists c' x, c' ∈ cells /\ at_ m "step_height" c' = Some (Val x)).
Proof.
  induction cells as [|c cells IH]; intros s0 s H; cbn [secondWindow] in H.
  - inversion H; subst. split; [lra|]. split; [lia|]. split.
    + intros c' x Hin. inversion Hin.
    + split; [now left|]. split; [tauto|].
      intros [?|(c' & x & Hin & _)]; [assumption|inversion Hin].
  - destruct (at_ m "step_height" c) as [v|] eqn:Hc; [|discriminate].
    destruct (IH _ _ H) as (Hle & Hn & Hub & Hatt & Hsaw).
    pose proof (scanStep_stepMax crit s0 v) as Hmono.
    pose proof (scanStep_nCells crit s0 v) as Hnmono.
    split; [lra|]. split; [lia|]. split; [|split].
    + intros c' x Hin Hx. apply elem_of_cons in Hin as [->|Hin].
      * rewrite Hc in Hx. inversion Hx; subst.
        cbn [scanStep] in Hle.
        destruct (Qlt_le_dec (stepMax s0) x); simpl in Hle; lra.
      * eapply Hub; eauto.
    + destruct Hatt as [Heq|(c' & Hin & Hx)].
      * destruct v as [|x]; [left; exact Heq|].
        cbn [scanStep] in Heq.
        destruct (Qlt_le_dec (stepMax s0) x); simpl in Heq.
        -- right. exists c. split; [left|]. now rewrite Heq.
        -- left. exact Heq.
      * right. exists c'. split; [now right|assumption].
    + rewrite Hsaw. split.
      * intros [Hs|(c' & x & Hin & Hx)].
        -- destruct v as [|x]; [now left|].
           right. exists c, x. split; [left|assumption].
        -- right. exists c', x. split; [now right|assumption].
      * intros [Hs|(c' & x & Hin & Hx)].
        -- left. destruct v as [|x]; [exact Hs|].
           cbn [scanStep]. destruct (Qlt_le_dec (stepMax s0) x); reflexivity.
        -- apply elem_of_cons in Hin as [->|Hin].
           ++ left. rewrite Hc in Hx. inversion Hx; subst.
              cbn [scanStep].
              destruct (Qlt_le_dec (stepMax s0) x); reflexivity.
           ++ right. exists c', x. split; assumption.
Qed.

Lemma costCell_dec f m0 m c :
  type_ f <> "step_height" ->
  nCellCritical_ f <> 0%Z ->
  is_Some (data_ m0 !! "step_height") ->
  related (type_ f) m0 m ->
  costCell f m c =
    match costDec f m0 c with
    | Some v => setAt m (type_ f) c v
    | None => Some m
    end.
Proof.
  intros Hne Hn He Hrel.
  unfold costCell, costDec, getPosition, CircleIterator.
  destruct Hrel as (Hs & Hp & Hc & HK & _).
  rewrite Hp, Hc.
  rewrite (secondWindow_congr _ m0 m) by (apply HK; congruence).
  destruct (secondWindow_total (criticalValue_ f) m0
              (circle_ m0 (position_ m0 c) (secondWindowRadius_ f)) scan0)
    as [s Hsc]; [assumption|].
  rewrite Hsc. destruct (sawValid s); [|reflexivity].
  apply Z.eqb_neq in Hn. now rewrite Hn.
Qed.

Lemma costPass_spec f m0 (l : list value) :
  type_ f <> "step_height" ->
  nCellCritical_ f <> 0%Z ->
  is_Some (data_ m0 !! "step_height") ->
  data_ m0 !! type_ f = Some l -> length l = size_ m0 ->
  exists m2, costPass f m0 = Some m2 /\
    related (type_ f) m0 m2 /\
    forall c, (c < size_ m0)%nat ->
      at_ m2 (type_ f) c =
        match costDec f m0 c with
        | Some v => Some v
        | None => at_ m0 (type_ f) c
        end.
Proof.
  intros Hne Hn He Hl Hlen.
  destruct (forCells_layer (type_ f) (costCell f)
              (costDec f m0) m0) with (cells := GridMapIterator m0)
              (m := m0)
    as (m2 & E & R & V).
  - intros m c Hrel. now apply costCell_dec.
  - eapply related_refl; eauto.
  - apply NoDup_GridMapIterator.
  - intros c. apply elem_of_GridMapIterator.
  - exists m2. split; [exact E|]. split; [exact R|].
    intros c Hc. rewrite V.
    rewrite decide_True by (now apply elem_of_GridMapIterator).
    reflexivity.
Qed.

(** ** The whole of [update] *)

Lemma prepare_step_height f mapIn :
  data_ (prepare f mapIn) !! "step_height" =
    Some (replicate (size_ (prepare f mapIn)) NaN).
Proof. unfold prepare, add. simpl. apply lookup_insert_eq. Qed.

Lemma prepare_type f mapIn :
  type_ f <> "step_height" ->
  data_ (prepare f mapIn) !! type_ f =
    Some (replicate (size_ (prepare f mapIn)) NaN).
Proof.
  intros Hne. unfold prepare, add. simpl.
  rewrite lookup_insert_ne by congruence. apply lookup_insert_eq.
Qed.

Lemma prepare_other f mapIn K :
  K <> type_ f -> K <> "step_height" ->
  data_ (prepare f mapIn) !! K = data_ mapIn !! K.
Proof.
  intros H1 H2. unfold prepare, add. simpl.
  rewrite !lookup_insert_ne by congruence. reflexivity.
Qed.

Lemma default_replicate_NaN n c : default NaN (replicate n NaN !! c) = NaN.
Proof.
  destruct (replicate n NaN !! c) as [v|] eqn:H; [|reflexivity].
  apply lookup_replicate in H as [-> _]. reflexivity.
Qed.

Lemma at_erase_ne m K L c : K <> L -> at_ (erase m L) K c = at_ m K c.
Proof.
  intros Hne. unfold at_, erase. simpl.
  rewrite lookup_delete_ne by congruence. reflexivity.
Qed.

(** Once the layers are distinct, the elevation layer exists and the
    divisor is not zero, [update] returns, and each cell of the output
    layer holds what [costDec] decides on the result of the first loop. *)
Lemma update_spec f mapIn :
  type_ f <> "step_height" ->
  nCellCritical_ f <> 0%Z ->
  is_Some (data_ (prepare f mapIn) !! "elevation") ->
  exists m1 m2,
    stepHeightPass f (prepare f mapIn) = Some m1 /\
    costPass f m1 = Some m2 /\
    update f mapIn = Some (erase m2 "step_height") /\
    related "step_height" (prepare f mapIn) m1 /\
    related (type_ f) m1 m2 /\
    (forall c, (c < size_ mapIn)%nat ->
       at_ m1 "step_height" c =
         Some (match stepHeightDec f (prepare f mapIn) c with
               | Some v => v
               | None => NaN
               end)) /\
    (forall c, (c < size_ mapIn)%nat ->
       at_ (erase m2 "step_height") (type_ f) c =
         Some (match costDec f m1 c with
               | Some v => v
               | None => NaN
               end)).
Proof.
  intros Hne Hn He.
  destruct (stepHeightPass_spec f (prepare f mapIn) _ He
              (prepare_step_height f mapIn))
    as (m1 & E1 & R1 & V1); [apply length_replicate|].
  pose proof R1 as (Hs1 & _ & _ & HK1 & l1 & Hl1 & Hlen1).
  assert (Ht1 : data_ m1 !! type_ f =
                Some (replicate (size_ (prepare f mapIn)) NaN)).
  { rewrite HK1 by assumption. now apply prepare_type. }
  destruct (costPass_spec f m1 _ Hne Hn (ltac:(eauto)) Ht1)
    as (m2 & E2 & R2 & V2).
  { rewrite length_replicate. now rewrite Hs1. }
  exists m1, m2. split; [exact E1|]. split; [exact E2|].
  split; [unfold update; now rewrite E1, E2|].
  split; [exact R1|]. split; [exact R2|]. split.
  - intros c Hc. rewrite V1 by exact Hc.
    destruct (stepHeightDec f (prepare f mapIn) c); [reflexivity|].
    unfold at_. rewrite prepare_step_height.
    now rewrite default_replicate_NaN.
  - intros c Hc. rewrite at_erase_ne by assumption.
    rewrite V2 by (rewrite Hs1; exact Hc).
    destruct (costDec f m1 c); [reflexivity|].
    unfold at_. rewrite Ht1. now rewrite default_replicate_NaN.
Qed.

(** ** Arithmetic of the written value *)

Lemma scan_from_scan0 crit m cells s :
  secondWindow crit m cells scan0 = Some s ->
  (0 <= stepMax s)%Q /\ (0 <= nCells s)%Z.
Proof.
  intros H. destruct (secondWindow_max _ _ _ _ _ H) as (H1 & H2 & _).
  simpl in H1, H2. split; [lra|lia].
Qed.

Lemma inject_Z_nonneg z : (0 <= z)%Z -> (0 <= inject_Z z)%Q.
Proof. intros H. change 0%Q with (inject_Z 0). now rewrite <- Zle_Qle. Qed.

Lemma dampened_nonneg f s :
  (0 <= stepMax s)%Q -> (0 <= nCells s)%Z -> (0 < nCellCritical_ f)%Z ->
  (0 <= dampened f s)%Q.
Proof.
  intros Hs Hn Hc. unfold dampened, std_min.
  destruct (Qlt_le_dec _ _); [|assumption].
  apply Qmult_le_0_compat; [|assumption].
  apply inject_Z_nonneg, Z.quot_pos; lia.
Qed.

Lemma dampened_small f s :
  (0 <= stepMax s)%Q -> (0 <= nCells s < nCellCritical_ f)%Z ->
  (dampened f s == 0)%Q.
Proof.
  intros Hs Hn. unfold dampened, std_min.
  rewrite Z.quot_small by assumption.
  destruct (Qlt_le_dec _ _) as [Hlt|Hge].
  - change (inject_Z 0) with 0%Q. lra.
  - change (inject_Z 0) with 0%Q in Hge. lra.
Qed.

Lemma cost_range f s :
  (0 <= dampened f s)%Q -> (0 <= cost f s <= 1)%Q.
Proof.
  intros Hd. unfold cost.
  destruct (Qlt_le_dec (dampened f s) (criticalValue_ f)) as [Hlt|Hge].
  - assert (Hpos : (0 < criticalValue_ f)%Q) by lra.
    assert (H0 : (0 <= dampened f s / criticalValue_ f)%Q).
    { apply Qle_shift_div_l; [assumption|lra]. }
    assert (H1 : (dampened f s / criticalValue_ f <= 1)%Q).
    { apply Qle_shift_div_r; [assumption|lra]. }
    lra.
  - lra.
Qed.

(** Where the step is not negative the division of line 166 is defined. *)
Lemma written_cost f s :
  (0 <= dampened f s)%Q -> written f s = Val (cost f s).
Proof.
  intros Hd. unfold written.
  destruct (Qlt_le_dec (dampened f s) (criticalValue_ f)); [|reflexivity].
  destruct (Qeq_dec (criticalValue_ f) 0); [lra|reflexivity].
Qed.

Lemma written_cost_scan f crit m cells s :
  (0 < nCellCritical_ f)%Z ->
  secondWindow crit m cells scan0 = Some s ->
  written f s = Val (cost f s).
Proof.
  intros Hn Hs. destruct (scan_from_scan0 _ _ _ _ Hs) as [Hsm Hnc].
  apply written_cost, dampened_nonneg; assumption.
Qed.

(** ** Configuration *)

Lemma configure_true params f f' :
  configure params f = (true, f') ->
  exists cv r1 r2 n t,
    getParamDouble params "critical_value" = Some cv /\
    getParamDouble params "first_window_radius" = Some r1 /\
    getParamDouble params "second_window_radius" = Some r2 /\
    getParamInt params "critical_cell_number" = Some n /\
    getParamString params "map_type" = Some t /\
    (0 <= cv)%Q /\ (0 <= r1)%Q /\ (0 <= r2)%Q /\ (0 < n)%Z /\
    f' = mkStepFilter cv r1 r2 n t.
Proof.
  unfold configure. intros H.
  destruct (getParamDouble params "critical_value") as [cv|];
    [|discriminate].
  cbv zeta in H. simpl criticalValue_ in H.
  destruct (Qlt_le_dec cv 0) as [|Hcv]; [discriminate|].
  destruct (getParamDouble params "first_window_radius") as [r1|];
    [|discriminate].
  simpl firstWindowRadius_ in H.
  destruct (Qlt_le_dec r1 0) as [|Hr1]; [discriminate|].
  destruct (getParamDouble params "second_window_radius") as [r2|];
    [|discriminate].
  simpl secondWindowRadius_ in H.
  destruct (Qlt_le_dec r2 0) as [|Hr2]; [discriminate|].
  destruct (getParamInt params "critical_cell_number") as [n|];
    [|discriminate].
  simpl nCellCritical_ in H.
  destruct (n <=? 0)%Z eqn:Hn; [discriminate|].
  destruct (getParamString params "map_type") as [t|]; [|discriminate].
  inversion H; subst. exists cv, r1, r2, n, t.
  repeat (split; [first [reflexivity|assumption]|]).
  split; [apply Z.leb_gt in Hn; lia|]. reflexivity.
Qed.

(** C5 (amended).  [configure] returns success only if all five
    parameters are obtainable, with a critical value and two radii that are
    not negative and a critical cell number above zero; and it returns
    success whenever they are obtainable with a critical value, two radii
    and a critical cell number above zero, whatever the output layer name
    is (the empty name included). *)
Theorem configure_success_conditions (params : gmap string XmlRpcValue)
    (f : StepFilter) :
  (forall f', configure params f = (true, f') ->
     exists cv r1 r2 n t,
       getParamDouble params "critical_value" = Some cv /\
       getParamDouble params "first_window_radius" = Some r1 /\
       getParamDouble params "second_window_radius" = Some r2 /\
       getParamInt params "critical_cell_number" = Some n /\
       getParamString params "map_type" = Some t /\
       (0 <= cv)%Q /\ (0 <= r1)%Q /\ (0 <= r2)%Q /\ (0 < n)%Z /\
       f' = mkStepFilter cv r1 r2 n t) /\
  (forall cv r1 r2 n t,
     getParamDouble params "critical_value" = Some cv ->
     getParamDouble params "first_window_radius" = Some r1 ->
     getParamDouble params "second_window_radius" = Some r2 ->
     getParamInt params "critical_cell_number" = Some n ->
     getParamString params "map_type" = Some t ->
     (0 < cv)%Q -> (0 < r1)%Q -> (0 < r2)%Q -> (0 < n)%Z ->
     configure params f = (true, mkStepFilter cv r1 r2 n t)).
Proof.
  split; [intros f'; apply configure_true|].
  intros cv r1 r2 n t E1 E2 E3 E4 E5 H1 H2 H3 H4.
  unfold configure. rewrite E1. cbv zeta. simpl criticalValue_.
  destruct (Qlt_le_dec cv 0); [lra|].
  rewrite E2. simpl firstWindowRadius_.
  destruct (Qlt_le_dec r1 0); [lra|].
  rewrite E3. simpl secondWindowRadius_.
  destruct (Qlt_le_dec r2 0); [lra|].
  rewrite E4. simpl nCellCritical_.
  destruct (n <=? 0)%Z eqn:Hn; [apply Z.leb_le in Hn; lia|].
  rewrite E5. reflexivity.
Qed.

(** C6 (amended).  When [configure] fails, the members whose parameter
    was read before the failing step hold the value read, the value that
    failed its range check included, and the members after it are
    unchanged.  The five cases, by the step that fails: the critical value
    is not obtainable, and the filter is unchanged; the critical value is
    negative or the first radius is not obtainable, and only the critical
    value is overwritten; and so on for the first radius, the second
    radius and the critical cell number.  The output layer name is never
    changed by a failed call. *)
Theorem configure_failure_state (params : gmap string XmlRpcValue)
    (f f' : StepFilter) :
  configure params f = (false, f') ->
  (getParamDouble params "critical_value" = None /\ f' = f) \/
  (exists cv,
     getParamDouble params "critical_value" = Some cv /\
     ((cv < 0)%Q \/
      (0 <= cv)%Q /\ getParamDouble params "first_window_radius" = None) /\
     f' = mkStepFilter cv (firstWindowRadius_ f) (secondWindowRadius_ f)
            (nCellCritical_ f) (type_ f)) \/
  (exists cv r1,
     getParamDouble params "critical_value" = Some cv /\ (0 <= cv)%Q /\
     getParamDouble params "first_window_radius" = Some r1 /\
     ((r1 < 0)%Q \/
      (0 <= r1)%Q /\ getParamDouble params "second_window_radius" = None) /\
     f' = mkStepFilter cv r1 (secondWindowRadius_ f)
            (nCellCritical_ f) (type_ f)) \/
  (exists cv r1 r2,
     getParamDouble params "critical_value" = Some cv /\ (0 <= cv)%Q /\
     getParamDouble params "first_window_radius" = Some r1 /\ (0 <= r1)%Q /\
     getParamDouble params "second_window_radius" = Some r2 /\
     ((r2 < 0)%Q \/
      (0 <= r2)%Q /\ getParamInt params "critical_cell_number" = None) /\
     f' = mkStepFilter cv r1 r2 (nCellCritical_ f) (type_ f)) \/
  (exists cv r1 r2 n,
     getParamDouble params "critical_value" = Some cv /\ (0 <= cv)%Q /\
     getParamDouble params "first_window_radius" = Some r1 /\ (0 <= r1)%Q /\
     getParamDouble params "second_window_radius" = Some r2 /\ (0 <= r2)%Q /\
     getParamInt params "critical_cell_number" = Some n /\
     ((n <= 0)%Z \/
      (0 < n)%Z /\ getParamString params "map_type" = None) /\
     f' = mkStepFilter cv r1 r2 n (type_ f)).
Proof.
  unfold configure. intros H.
  destruct (getParamDouble params "critical_value") as [cv|];
    [|left; inversion H; auto].
  right. cbv zeta in H. simpl criticalValue_ in H.
  destruct (Qlt_le_dec cv 0) as [Hcv|Hcv].
  { left. exists cv. inversion H. auto. }
  destruct (getParamDouble params "first_window_radius") as [r1|].
  2:{ left. exists cv. inversion H. auto. }
  right. simpl firstWindowRadius_ in H.
  destruct (Qlt_le_dec r1 0) as [Hr1|Hr1].
  { left. exists cv, r1. inversion H. auto 10. }
  destruct (getParamDouble params "second_window_radius") as [r2|].
  2:{ left. exists cv, r1. inversion H. auto 10. }
  right. simpl secondWindowRadius_ in H.
  destruct (Qlt_le_dec r2 0) as [Hr2|Hr2].
  { left. exists cv, r1, r2. inversion H. auto 10. }
  destruct (getParamInt params "critical_cell_number") as [n|].
  2:{ left. exists cv, r1, r2. inversion H. auto 10. }
  right. simpl nCellCritical_ in H.
  exists cv, r1, r2, n.
  destruct (n <=? 0)%Z eqn:Hn.
  { apply Z.leb_le in Hn. inversion H. auto 12. }
  apply Z.leb_gt in Hn.
  destruct (getParamString params "map_type") as [t|]; [discriminate|].
  inversion H. repeat (split; [first [reflexivity|assumption]|]).
  split; [right; split; [lia|reflexivity]|reflexivity].
Qed.

(** ** The step-height pass *)

(** C2.  The first loop, run on a map whose [step_height] layer was just
    added: it returns; a cell whose elevation is invalid is skipped (its
    [step_height] stays unset); for a cell [c] of elevation [height] there
    is a value [sm], the largest of 0 and the steps [|height - e|] to the
    valid cells of the disc of radius [firstWindowRadius_] around [c], and
    [step_height(c)] is [sm] when [0 < sm] and stays unset otherwise. *)
Theorem step_height_pass_max (f : StepFilter) (m : GridMap) :
  is_Some (data_ m !! "elevation") ->
  data_ m !! "step_height" = Some (replicate (size_ m) NaN) ->
  exists m1, stepHeightPass f m = Some m1 /\
    forall c, (c < size_ m)%nat ->
      (at_ m "elevation" c = Some NaN -> at_ m1 "step_height" c = Some NaN) /\
      (forall height, at_ m "elevation" c = Some (Val height) ->
         let window :=
           CircleIterator m (getPosition m c) (firstWindowRadius_ f) in
         exists sm,
           (0 <= sm)%Q /\
           (forall c' e, c' ∈ window ->
              at_ m "elevation" c' = Some (Val e) ->
              (Qabs (height - e) <= sm)%Q) /\
           (sm = 0%Q \/
            exists c' e, c' ∈ window /\
              at_ m "elevation" c' = Some (Val e) /\
              sm = Qabs (height - e)) /\
           at_ m1 "step_height" c =
             Some (if Qlt_le_dec 0 sm then Val sm else NaN)).
Proof.
  intros He Hsh.
  destruct (stepHeightPass_spec f m _ He Hsh) as (m1 & E & _ & V);
    [apply length_replicate|].
  exists m1. split; [exact E|]. intros c Hc.
  assert (Hold : at_ m "step_height" c = Some NaN).
  { unfold at_. rewrite Hsh. now rewrite default_replicate_NaN. }
  rewrite (V c Hc), Hold. unfold stepHeightDec. split.
  - intros ->. reflexivity.
  - intros height ->. cbv zeta.
    destruct (firstWindow_total m height
                (CircleIterator m (getPosition m c) (firstWindowRadius_ f)) 0
                He) as [sm Hsm].
    rewrite Hsm. exists sm.
    destruct (firstWindow_max _ _ _ _ _ Hsm) as (H0 & Hub & Hatt).
    split; [exact H0|]. split; [exact Hub|]. split; [exact Hatt|].
    destruct (Qlt_le_dec 0 sm); reflexivity.
Qed.

(** ** The cost-aggregation pass *)

(** C3.  One more cell in the window scan of the second loop: the scan of
    the cells before it holds the running maximum of their valid
    [step_height] values (0 when there is none); the counter grows by one
    when the new cell is valid, its value is strictly above that running
    maximum and strictly above the critical value, and is unchanged in every
    other case (an invalid cell, a value that does not raise the running
    maximum even when it is critical, a value not above the critical
    value). *)
Theorem nCells_counts_critical_raises (crit : Q) (m : GridMap)
    (cells : list nat) (c : nat) (s : scan) (v : value) :
  secondWindow crit m cells scan0 = Some s ->
  at_ m "step_height" c = Some v ->
  exists s', secondWindow crit m (cells ++ [c]) scan0 = Some s' /\
    (forall c' x, c' ∈ cells -> at_ m "step_height" c' = Some (Val x) ->
       (x <= stepMax s)%Q) /\
    (stepMax s = 0%Q \/
     exists c', c' ∈ cells /\
       at_ m "step_height" c' = Some (Val (stepMax s))) /\
    (forall x, v = Val x -> (stepMax s < x)%Q -> (crit < x)%Q ->
       nCells s' = (nCells s + 1)%Z) /\
    (v = NaN \/ (exists x, v = Val x /\ ((x <= stepMax s)%Q \/ (x <= crit)%Q)) ->
     nCells s' = nCells s).
Proof.
  intros Hs Hv. exists (scanStep crit s v).
  split.
  { rewrite secondWindow_app, Hs. simpl. now rewrite Hv. }
  destruct (secondWindow_max _ _ _ _ _ Hs) as (_ & _ & Hub & Hatt & _).
  split; [exact Hub|]. split; [exact Hatt|]. split.
  - intros x -> H1 H2. simpl.
    destruct (Qlt_le_dec (stepMax s) x); [|lra]. simpl.
    destruct (Qlt_le_dec crit x); [reflexivity|lra].
  - intros [->|(x & -> & Hx)]; [reflexivity|]. simpl.
    destruct (Qlt_le_dec (stepMax s) x); [|reflexivity]. simpl.
    destruct (Qlt_le_dec crit x); [|reflexivity].
    destruct Hx; lra.
Qed.

(** C1.  The second loop, run with a positive critical value and a
    positive critical cell number on a map whose output layer is not
    [step_height]: it returns, and for every cell [c] whose disc of radius
    [secondWindowRadius_] holds a valid [step_height] sample the written
    output is [1 - step / criticalValue_] when [step < criticalValue_] and
    [0] otherwise, where
    [step = min(stepMax, nCells / nCellCritical_ * stepMax)] with the
    truncating quotient of the two integers; so when
    [nCells < nCellCritical_] the step is 0 and the output is 1, however
    large [stepMax] is. *)
Theorem cost_pass_output (f : StepFilter) (m : GridMap) (l : list value)
    (c : nat) :
  (0 < criticalValue_ f)%Q ->
  (0 < nCellCritical_ f)%Z ->
  type_ f <> "step_height" ->
  data_ m !! type_ f = Some l -> length l = size_ m ->
  (c < size_ m)%nat ->
  (exists c' x,
     c' ∈ CircleIterator m (getPosition m c) (secondWindowRadius_ f) /\
     at_ m "step_height" c' = Some (Val x)) ->
  exists m2 s q,
    costPass f m = Some m2 /\
    secondWindow (criticalValue_ f) m
      (CircleIterator m (getPosition m c) (secondWindowRadius_ f)) scan0
      = Some s /\
    at_ m2 (type_ f) c = Some (Val q) /\
    let step :=
      std_min (stepMax s)
        (inject_Z (nCells s ÷ nCellCritical_ f) * stepMax s) in
    q = (if Qlt_le_dec step (criticalValue_ f)
         then 1 - step / criticalValue_ f else 0) /\
    ((nCells s < nCellCritical_ f)%Z -> (step == 0)%Q /\ (q == 1)%Q).
Proof.
  intros Hpos Hn Hne Hl Hlen Hc (c' & x & Hin & Hx).
  assert (Hsh : is_Some (data_ m !! "step_height")).
  { unfold at_ in Hx. destruct (data_ m !! "step_height"); [eauto|discriminate]. }
  destruct (costPass_spec f m l Hne ltac:(lia) Hsh Hl Hlen)
    as (m2 & E & _ & V).
  destruct (secondWindow_total (criticalValue_ f) m
              (CircleIterator m (getPosition m c) (secondWindowRadius_ f))
              scan0 Hsh) as [s Hs].
  destruct (secondWindow_max _ _ _ _ _ Hs) as (_ & _ & _ & _ & Hsaw).
  assert (Hvalid : sawValid s = true).
  { apply Hsaw. right. eauto. }
  destruct (scan_from_scan0 _ _ _ _ Hs) as [Hsm Hnc].
  exists m2, s, (cost f s).
  split; [exact E|]. split; [exact Hs|]. split.
  { rewrite (V c Hc). unfold costDec. rewrite Hs, Hvalid.
    now rewrite (written_cost_scan f _ _ _ _ Hn Hs). }
  cbv zeta. split; [reflexivity|].
  intros Hlt.
  pose proof (dampened_small f s Hsm (conj Hnc Hlt)) as Hd.
  split; [exact Hd|].
  unfold cost.
  destruct (Qlt_le_dec (dampened f s) (criticalValue_ f)) as [_|Hge]; [|lra].
  rewrite Hd. unfold Qdiv. lra.
Qed.

(** C4.  For a configuration accepted by [configure] whose output layer is
    not [step_height], on a raster that has an elevation layer: [update]
    returns, and each cell of the output layer is unset or holds a value in
    [[0,1]]; it is valid exactly when some cell of its disc of radius
    [secondWindowRadius_] has a valid [step_height] after the first loop. *)
Theorem output_in_unit_interval (params : gmap string XmlRpcValue)
    (f0 f : StepFilter) (mapIn : GridMap) :
  configure params f0 = (true, f) ->
  type_ f <> "step_height" ->
  is_Some (data_ (prepare f mapIn) !! "elevation") ->
  exists m1 mapOut,
    stepHeightPass f (prepare f mapIn) = Some m1 /\
    update f mapIn = Some mapOut /\
    forall c, (c < size_ mapIn)%nat ->
      exists v, at_ mapOut (type_ f) c = Some v /\
        (v = NaN \/ exists q, v = Val q /\ (0 <= q <= 1)%Q) /\
        (isfinite v = true <->
         exists c' x,
           c' ∈ CircleIterator m1 (getPosition m1 c) (secondWindowRadius_ f) /\
           at_ m1 "step_height" c' = Some (Val x)).
Proof.
  intros Hcfg Hne He.
  assert (Hn : (0 < nCellCritical_ f)%Z).
  { destruct (configure_true _ _ _ Hcfg)
      as (cv & r1 & r2 & n & t & _ & _ & _ & _ & _ & _ & _ & _ & Hn & ->).
    exact Hn. }
  destruct (update_spec f mapIn Hne ltac:(lia) He)
    as (m1 & m2 & E1 & E2 & EU & R1 & R2 & V1 & V2).
  exists m1, (erase m2 "step_height").
  split; [exact E1|]. split; [exact EU|].
  intros c Hc. rewrite (V2 c Hc). eexists. split; [reflexivity|].
  unfold costDec.
  assert (Hsh : is_Some (data_ m1 !! "step_height")).
  { destruct R1 as (_ & _ & _ & _ & l1 & Hl1 & _). eauto. }
  destruct (secondWindow_total (criticalValue_ f) m1
              (CircleIterator m1 (getPosition m1 c) (secondWindowRadius_ f))
              scan0 Hsh) as [s Hs].
  rewrite Hs, (written_cost_scan f _ _ _ _ Hn Hs).
  destruct (secondWindow_max _ _ _ _ _ Hs) as (_ & _ & _ & _ & Hsaw).
  destruct (scan_from_scan0 _ _ _ _ Hs) as [Hsm Hnc].
  destruct (sawValid s) eqn:Hv.
  - split.
    + right. exists (cost f s). split; [reflexivity|].
      apply cost_range, dampened_nonneg; assumption.
    + simpl. split; [intros _|reflexivity].
      destruct Hsaw as [Hsaw _].
      destruct (Hsaw eq_refl) as [H|H]; [discriminate H|exact H].
  - split; [now left|]. simpl. split; [discriminate|].
    intros H. apply Hsaw. now right.
Qed.

(** C10.  The second loop does not look at the elevation of the cell it
    writes: with a positive critical cell number, a cell whose elevation is
    invalid, whose [step_height] is therefore unset, receives a valid
    output as soon as a cell of its disc of radius [secondWindowRadius_]
    has a valid [step_height]. *)
Theorem invalid_elevation_cell_gets_cost (f : StepFilter) (mapIn : GridMap)
    (c : nat) :
  type_ f <> "step_height" ->
  (0 < nCellCritical_ f)%Z ->
  (c < size_ mapIn)%nat ->
  at_ (prepare f mapIn) "elevation" c = Some NaN ->
  exists m1 mapOut,
    stepHeightPass f (prepare f mapIn) = Some m1 /\
    update f mapIn = Some mapOut /\
    at_ m1 "step_height" c = Some NaN /\
    ((exists c' x,
        c' ∈ CircleIterator m1 (getPosition m1 c) (secondWindowRadius_ f) /\
        at_ m1 "step_height" c' = Some (Val x)) ->
     exists q, at_ mapOut (type_ f) c = Some (Val q)).
Proof.
  intros Hne Hn Hc Hnan.
  assert (He : is_Some (data_ (prepare f mapIn) !! "elevation")).
  { unfold at_ in Hnan.
    destruct (data_ (prepare f mapIn) !! "elevation"); [eauto|discriminate]. }
  destruct (update_spec f mapIn Hne ltac:(lia) He)
    as (m1 & m2 & E1 & E2 & EU & R1 & R2 & V1 & V2).
  exists m1, (erase m2 "step_height").
  split; [exact E1|]. split; [exact EU|]. split.
  - rewrite (V1 c Hc). unfold stepHeightDec. now rewrite Hnan.
  - intros Hex. rewrite (V2 c Hc). unfold costDec.
    assert (Hsh : is_Some (data_ m1 !! "step_height")).
    { destruct R1 as (_ & _ & _ & _ & l1 & Hl1 & _). eauto. }
    destruct (secondWindow_total (criticalValue_ f) m1
                (CircleIterator m1 (getPosition m1 c) (secondWindowRadius_ f))
                scan0 Hsh) as [s Hs].
    rewrite Hs, (written_cost_scan f _ _ _ _ Hn Hs).
    destruct (secondWindow_max _ _ _ _ _ Hs) as (_ & _ & _ & _ & Hsaw).
    assert (Hv : sawValid s = true) by (apply Hsaw; now right).
    rewrite Hv. eauto.
Qed.

(** ** Layers of the result *)

Lemma frame_refl L m : frame L m m.
Proof. repeat split. Qed.

Lemma frame_trans L m1 m2 m3 :
  frame L m1 m2 -> frame L m2 m3 -> frame L m1 m3.
Proof.
  intros (A1 & A2 & A3 & A4 & A5) (B1 & B2 & B3 & B4 & B5).
  repeat split; try congruence.
  intros K HK. rewrite B5, A5 by assumption. reflexivity.
Qed.

Lemma setAt_frame L m c v m' : setAt m L c v = Some m' -> frame L m m'.
Proof.
  unfold setAt. destruct (data_ m !! L) as [l|] eqn:Hl; [|discriminate].
  intros H. inversion H; subst. repeat split; simpl.
  - rewrite dom_insert_L.
    assert (L ∈ dom (data_ m)) by (apply elem_of_dom; eauto).
    set_solver.
  - intros K HK. now rewrite lookup_insert_ne by congruence.
Qed.

Lemma forCells_frame L body :
  (forall m c m', body m c = Some m' -> frame L m m') ->
  forall cells m m', forCells body cells m = Some m' -> frame L m m'.
Proof.
  intros Hb. induction cells as [|c cells IH]; intros m m' H; simpl in H.
  - inversion H; subst. apply frame_refl.
  - destruct (body m c) as [m1|] eqn:E; [|discriminate].
    eapply frame_trans; [eapply Hb; eassumption|now apply IH].
Qed.

Lemma stepHeightCell_frame f m c m' :
  stepHeightCell f m c = Some m' -> frame "step_height" m m'.
Proof.
  unfold stepHeightCell. intros H.
  destruct (at_ m "elevation" c) as [[|height]|]; [| |discriminate].
  - inversion H; subst. apply frame_refl.
  - destruct (firstWindow _ _ _ _) as [sm|]; [|discriminate].
    destruct (Qlt_le_dec 0 sm).
    + eapply setAt_frame; eassumption.
    + inversion H; subst. apply frame_refl.
Qed.

Lemma costCell_frame f m c m' :
  costCell f m c = Some m' -> frame (type_ f) m m'.
Proof.
  unfold costCell. intros H.
  destruct (secondWindow _ _ _ _) as [s|]; [|discriminate].
  destruct (sawValid s).
  - destruct (nCellCritical_ f =? 0)%Z; [discriminate|].
    eapply setAt_frame; eassumption.
  - inversion H; subst. apply frame_refl.
Qed.

(** C7 (amended).  When the input raster has no layer named [step_height]
    and the output layer is not named [step_height], the raster returned by
    [update] has the geometry of the input, carries exactly the layers of
    the input and the output layer, has no [step_height] layer, and every
    layer other than the output layer holds the values it has in the
    input. *)
Theorem update_layers (f : StepFilter) (mapIn mapOut : GridMap) :
  type_ f <> "step_height" ->
  "step_height" ∉ dom (data_ mapIn) ->
  update f mapIn = Some mapOut ->
  size_ mapOut = size_ mapIn /\ position_ mapOut = position_ mapIn /\
  circle_ mapOut = circle_ mapIn /\
  dom (data_ mapOut) = dom (data_ mapIn) ∪ {[ type_ f ]} /\
  data_ mapOut !! "step_height" = None /\
  forall K, K <> type_ f -> data_ mapOut !! K = data_ mapIn !! K.
Proof.
  intros Hne Hfresh H. unfold update in H.
  destruct (stepHeightPass f (prepare f mapIn)) as [m1|] eqn:E1;
    [|discriminate].
  destruct (costPass f m1) as [m2|] eqn:E2; [|discriminate].
  inversion H; subst mapOut. clear H.
  apply (forCells_frame "step_height" _ (stepHeightCell_frame f)) in E1.
  apply (forCells_frame (type_ f) _ (costCell_frame f)) in E2.
  destruct E1 as (A1 & A2 & A3 & A4 & A5).
  destruct E2 as (B1 & B2 & B3 & B4 & B5).
  simpl in A1, A2, A3.
  split; [simpl; congruence|]. split; [simpl; congruence|].
  split; [simpl; congruence|]. split; [|split].
  - unfold erase. simpl. rewrite dom_delete_L, B4, A4.
    unfold prepare, add. simpl. rewrite !dom_insert_L.
    set_solver.
  - unfold erase. simpl. apply lookup_delete_eq.
  - intros K HK. unfold erase. simpl.
    destruct (decide (K = "step_height")) as [->|HK'].
    + rewrite lookup_delete_eq. symmetry. now apply not_elem_of_dom.
    + rewrite lookup_delete_ne by congruence.
      rewrite B5, A5 by assumption. now apply prepare_other.
Qed.

(** ** Dependence on the critical value *)

Lemma secondWindow_crit_mono c1 c2 m cells :
  (c1 <= c2)%Q ->
  forall s1 s2 s1',
    stepMax s2 = stepMax s1 -> sawValid s2 = sawValid s1 ->
    (nCells s2 <= nCells s1)%Z ->
    secondWindow c1 m cells s1 = Some s1' ->
    exists s2', secondWindow c2 m cells s2 = Some s2' /\
      stepMax s2' = stepMax s1' /\ sawValid s2' = sawValid s1' /\
      (nCells s2' <= nCells s1')%Z.
Proof.
  intros Hc. induction cells as [|c cells IH];
    intros s1 s2 s1' Hm Hv Hn H; cbn [secondWindow] in *.
  - inversion H; subst. eauto.
  - destruct (at_ m "step_height" c) as [v|]; [|discriminate].
    apply (IH _ (scanStep c2 s2 v)) in H; [exact H|..].
    + destruct v as [|x]; [exact Hm|]. cbn [scanStep]. rewrite Hm.
      destruct (Qlt_le_dec (stepMax s1) x); reflexivity.
    + destruct v as [|x]; [exact Hv|]. cbn [scanStep]. rewrite Hm.
      destruct (Qlt_le_dec (stepMax s1) x); reflexivity.
    + destruct v as [|x]; [exact Hn|]. cbn [scanStep]. rewrite Hm.
      destruct (Qlt_le_dec (stepMax s1) x); simpl; [|exact Hn].
      destruct (Qlt_le_dec c1 x), (Qlt_le_dec c2 x); try lia. lra.
Qed.

Lemma dampened_mono f1 f2 s1 s2 :
  nCellCritical_ f2 = nCellCritical_ f1 -> (0 < nCellCritical_ f1)%Z ->
  stepMax s2 = stepMax s1 -> (0 <= stepMax s1)%Q ->
  (0 <= nCells s2 <= nCells s1)%Z ->
  (dampened f2 s2 <= dampened f1 s1)%Q.
Proof.
  intros Hk Hpos Hm Hs Hn. unfold dampened, std_min. rewrite Hk, Hm.
  assert (Hq : (inject_Z (nCells s2 ÷ nCellCritical_ f1) * stepMax s1 <=
                inject_Z (nCells s1 ÷ nCellCritical_ f1) * stepMax s1)%Q).
  { apply Qmult_le_compat_r; [|exact Hs].
    rewrite <- Zle_Qle. apply Z.quot_le_mono; lia. }
  repeat destruct (Qlt_le_dec _ _); lra.
Qed.

Lemma cost_mono f1 f2 s1 s2 :
  (criticalValue_ f1 <= criticalValue_ f2)%Q ->
  (0 <= dampened f2 s2)%Q ->
  (dampened f2 s2 <= dampened f1 s1)%Q ->
  (cost f1 s1 <= cost f2 s2)%Q.
Proof.
  intros Hc H0 Hd.
  pose proof (cost_range f2 s2 H0) as [Hlow _].
  unfold cost in *.
  destruct (Qlt_le_dec (dampened f1 s1) (criticalValue_ f1)) as [H1|H1];
    [|exact Hlow].
  destruct (Qlt_le_dec (dampened f2 s2) (criticalValue_ f2)) as [H2|H2];
    [|lra].
  assert (Hdiv : (dampened f2 s2 / criticalValue_ f2 <=
                  dampened f1 s1 / criticalValue_ f1)%Q).
  { apply Qle_shift_div_r; [lra|].
    assert (Hq : (0 <= dampened f1 s1 / criticalValue_ f1)%Q).
    { apply Qle_shift_div_l; lra. }
    apply Qle_trans with (criticalValue_ f1 * (dampened f1 s1 / criticalValue_ f1))%Q.
    - rewrite Qmult_div_r by lra. exact Hd.
    - rewrite (Qmult_comm (criticalValue_ f1)).
      rewrite !(Qmult_comm (dampened f1 s1 / criticalValue_ f1)).
      apply Qmult_le_compat_r; assumption. }
  lra.
Qed.

(** C8 (amended).  With the raster and the other parameters fixed, raising
    the critical value leaves the set of valid output cells unchanged and
    never lowers the output of a cell: the output moves toward 1 or stays
    as it is. *)
Theorem output_monotone_in_criticalValue (f : StepFilter) (c2 : Q)
    (mapIn : GridMap) :
  (criticalValue_ f <= c2)%Q ->
  (0 < nCellCritical_ f)%Z ->
  type_ f <> "step_height" ->
  is_Some (data_ (prepare f mapIn) !! "elevation") ->
  exists out1 out2,
    update f mapIn = Some out1 /\
    update (set_criticalValue f c2) mapIn = Some out2 /\
    forall c, (c < size_ mapIn)%nat ->
      (at_ out1 (type_ f) c = Some NaN /\ at_ out2 (type_ f) c = Some NaN) \/
      exists q1 q2,
        at_ out1 (type_ f) c = Some (Val q1) /\
        at_ out2 (type_ f) c = Some (Val q2) /\
        (q1 <= q2)%Q.
Proof.
  intros Hc Hn Hne He.
  set (f2 := set_criticalValue f c2).
  destruct (update_spec f mapIn Hne ltac:(lia) He)
    as (m1 & m2 & E1 & E2 & EU & R1 & R2 & V1 & V2).
  destruct (update_spec f2 mapIn Hne ltac:(simpl; lia) He)
    as (m1' & m2' & E1' & E2' & EU' & R1' & R2' & V1' & V2').
  assert (m1' = m1) by (change (stepHeightPass f (prepare f mapIn) = Some m1')
                          in E1'; congruence).
  subst m1'.
  exists (erase m2 "step_height"), (erase m2' "step_height").
  split; [exact EU|]. split; [exact EU'|].
  intros c Hlt.
  change (type_ f) with (type_ f2) at 2 4.
  rewrite (V2 c Hlt), (V2' c Hlt). unfold costDec.
  change (secondWindowRadius_ f2) with (secondWindowRadius_ f).
  change (criticalValue_ f2) with c2.
  assert (Hsh : is_Some (data_ m1 !! "step_height")).
  { destruct R1 as (_ & _ & _ & _ & l1 & Hl1 & _). eauto. }
  destruct (secondWindow_total (criticalValue_ f) m1
              (CircleIterator m1 (getPosition m1 c) (secondWindowRadius_ f))
              scan0 Hsh) as [s1 Hs1].
  destruct (secondWindow_crit_mono _ _ _ _ Hc scan0 scan0 s1
              eq_refl eq_refl ltac:(lia) Hs1) as (s2 & Hs2 & Hm & Hv & Hle).
  rewrite Hs1, Hs2, Hv.
  rewrite (written_cost_scan f _ _ _ _ Hn Hs1),
          (written_cost_scan f2 _ _ _ _ Hn Hs2).
  destruct (sawValid s1); [right|left; split; reflexivity].
  exists (cost f s1), (cost f2 s2).
  split; [reflexivity|]. split; [reflexivity|].
  destruct (scan_from_scan0 _ _ _ _ Hs1) as [Hsm1 _].
  destruct (scan_from_scan0 _ _ _ _ Hs2) as [Hsm2 Hnc2].
  apply cost_mono.
  - exact Hc.
  - apply dampened_nonneg; assumption.
  - apply dampened_mono; try assumption; try reflexivity. lia.
Qed.

(** ** An isolated spike *)

Lemma at_prepare_elevation f mapIn c :
  type_ f <> "elevation" ->
  at_ (prepare f mapIn) "elevation" c = at_ mapIn "elevation" c.
Proof.
  intros Hne. unfold at_. rewrite prepare_other; [reflexivity|congruence|].
  discriminate.
Qed.








(** ** Examples *)

(** A row [no data; 0; 1]: the first cell stays unset, the second sees the
    step to the third. *)
Lemma step_height_pass_max_witness :
  let f := exampleFilter 5 in
  let m := prepare f (rowMap [NaN; Val 0; Val 1]) in
  exists m1, stepHeightPass f m = Some m1 /\
    at_ m1 "step_height" 0 = Some NaN /\
    exists sm, (Qabs (0 - 1) <= sm)%Q /\
      at_ m1 "step_height" 1 = Some (if Qlt_le_dec 0 sm then Val sm else NaN).
Proof.
  intros f m.
  destruct (step_height_pass_max f m) as (m1 & E & H).
  - vm_compute. eauto.
  - reflexivity.
  - exists m1. split; [exact E|]. split.
    + apply (H 0%nat); [simpl; lia|reflexivity].
    + destruct (H 1%nat) as [_ H1]; [simpl; lia|].
      destruct (H1 0 eq_refl) as (sm & _ & Hub & _ & Hat).
      exists sm. split; [|exact Hat].
      apply (Hub 2%nat 1); [|reflexivity].
      vm_compute. repeat constructor.
Defined.

(** A second critical sample equal to the running maximum does not raise
    the counter. *)
Lemma nCells_counts_critical_raises_witness :
  exists s', secondWindow (3 # 10) plateauRow ([0%nat] ++ [1%nat]) scan0
             = Some s' /\
    nCells s' = 1%Z.
Proof.
  destruct (nCells_counts_critical_raises (3 # 10) plateauRow [0%nat] 1
              {| nCells := 1; stepMax := 1 # 2; sawValid := true |}
              (Val (1 # 2)))
    as (s' & E & _ & _ & _ & Hsame).
  - reflexivity.
  - reflexivity.
  - exists s'. split; [exact E|]. rewrite Hsame; [reflexivity|].
    right. exists (1 # 2). split; [reflexivity|]. left. simpl. lra.
Defined.

(** One raise of the maximum against five critical cells: the quotient is
    0 and the output is 1. *)
Lemma cost_pass_output_witness :
  exists m2 q, costPass (exampleFilter 5) steppedRow = Some m2 /\
    at_ m2 "traversability_step" 0 = Some (Val q) /\ (q == 1)%Q.
Proof.
  destruct (cost_pass_output (exampleFilter 5) steppedRow [NaN; NaN; NaN] 0)
    as (m2 & s & q & E & Hs & Hat & Hq & Hsmall).
  - reflexivity.
  - reflexivity.
  - discriminate.
  - reflexivity.
  - reflexivity.
  - simpl. lia.
  - exists 1%nat, 1. split; [vm_compute; repeat constructor|reflexivity].
  - vm_compute in Hs. injection Hs as <-.
    destruct Hsmall as [_ H1]; [simpl; lia|].
    exists m2, q. split; [exact E|]. split; [exact Hat|exact H1].
Defined.

(** The positive critical value is needed: with the critical value 0,
    which the check [criticalValue_ < 0.0] of [configure] lets through, the
    same window gives the output 0 although [nCells < nCellCritical_]. *)
Lemma cost_at_zero_criticalValue :
  let f := mkStepFilter 0 1 1 5 "traversability_step" in
  configure (exampleParams 0 1 1 5 "traversability_step") StepFilter_new
    = (true, f) /\
  secondWindow (criticalValue_ f) steppedRow
    (CircleIterator steppedRow (getPosition steppedRow 0)
       (secondWindowRadius_ f)) scan0
    = Some {| nCells := 1; stepMax := 1; sawValid := true |} /\
  (1 < nCellCritical_ f)%Z /\
  (exists m2, costPass f steppedRow = Some m2 /\
     at_ m2 (type_ f) 0 = Some (Val 0)) /\
  outputAt f (rowMap [NaN; Val 0; Val 1]) 0 = Some (Val 0) /\
  ~ (0 == 1)%Q.
Proof.
  intros f. split; [reflexivity|]. split; [reflexivity|].
  split; [simpl; lia|]. split.
  - eexists. split; [vm_compute; reflexivity|]. reflexivity.
  - split; [reflexivity|]. discriminate.
Qed.

(** The output of the first cell of the row lies in the unit interval. *)
Lemma output_in_unit_interval_witness :
  exists mapOut,
    update (exampleFilter 5) (rowMap [NaN; Val 0; Val 1]) = Some mapOut /\
    exists v, at_ mapOut "traversability_step" 0 = Some v /\
      (v = NaN \/ exists q, v = Val q /\ (0 <= q <= 1)%Q).
Proof.
  destruct (output_in_unit_interval
              (exampleParams (3 # 10) 1 1 5 "traversability_step")
              StepFilter_new (exampleFilter 5) (rowMap [NaN; Val 0; Val 1]))
    as (m1 & mapOut & _ & EU & H).
  - reflexivity.
  - discriminate.
  - vm_compute. eauto.
  - exists mapOut. split; [exact EU|].
    destruct (H 0%nat) as (v & Hv & Hr & _); [simpl; lia|].
    exists v. split; assumption.
Defined.

(** The first cell of the row has no elevation and still gets an output,
    from the step height of its neighbour. *)
Lemma invalid_elevation_cell_gets_cost_witness :
  exists mapOut q,
    update (exampleFilter 5) (rowMap [NaN; Val 0; Val 1]) = Some mapOut /\
    at_ mapOut "traversability_step" 0 = Some (Val q).
Proof.
  destruct (invalid_elevation_cell_gets_cost (exampleFilter 5)
              (rowMap [NaN; Val 0; Val 1]) 0)
    as (m1 & mapOut & E1 & EU & _ & Himp).
  - discriminate.
  - reflexivity.
  - simpl. lia.
  - reflexivity.
  - destruct Himp as [q Hq].
    + exists 1%nat, 1.
      assert (HW : option_map
                (fun m => CircleIterator m (getPosition m 0)
                            (secondWindowRadius_ (exampleFilter 5)))
                (stepHeightPass (exampleFilter 5)
                   (prepare (exampleFilter 5) (rowMap [NaN; Val 0; Val 1])))
              = Some [0%nat; 1%nat]) by reflexivity.
      assert (HS : stepHeightAt (exampleFilter 5)
                     (rowMap [NaN; Val 0; Val 1]) 1 = Some (Val 1))
        by reflexivity.
      unfold stepHeightAt in HS. rewrite E1 in HW, HS.
      injection HW as HW. split; [|exact HS].
      simpl secondWindowRadius_. rewrite HW. repeat constructor.
    + exists mapOut, q. split; [exact EU|exact Hq].
Defined.

(** A parameter source with five values above zero is accepted. *)
Lemma configure_success_conditions_witness :
  configure (exampleParams (3 # 10) 1 1 5 "traversability_step")
    StepFilter_new
  = (true, mkStepFilter (3 # 10) 1 1 5 "traversability_step").
Proof.
  apply (proj2 (configure_success_conditions
                  (exampleParams (3 # 10) 1 1 5 "traversability_step")
                  StepFilter_new));
    try reflexivity.
Defined.

(** [configure] succeeds with an empty output layer name. *)
Lemma configure_accepts_empty_layer_name :
  getParamString (exampleParams (3 # 10) 1 1 5 "") "map_type" = Some "" /\
  configure (exampleParams (3 # 10) 1 1 5 "") StepFilter_new
  = (true, mkStepFilter (3 # 10) 1 1 5 "").
Proof. split; reflexivity. Qed.

(** The critical value 1 passes its check and the first radius -1/2 fails
    its own: the call fails, and the filter holds both, with the other
    members as they were. *)
Lemma configure_failure_state_witness :
  let params : gmap string XmlRpcValue :=
    {[ "critical_value" := TypeDouble 1;
       "first_window_radius" := TypeDouble (-1 # 2) ]} in
  exists f', configure params StepFilter_new = (false, f') /\
    f' = mkStepFilter 1 (-1 # 2) (8 # 100) 5 "traversability_step".
Proof.
  intros params.
  exists (snd (configure params StepFilter_new)).
  assert (H : configure params StepFilter_new
              = (false, snd (configure params StepFilter_new)))
    by reflexivity.
  split; [exact H|].
  destruct (configure_failure_state params StepFilter_new _ H)
    as [[E _]|[(cv & E & _)|[(cv & r1 & E1 & _ & E2 & _ & Hf)
       |[(cv & r1 & r2 & _ & _ & _ & _ & E & _)
        |(cv & r1 & r2 & n & _ & _ & _ & _ & E & _)]]]].
  - discriminate E.
  - reflexivity.
  - rewrite Hf. injection E1 as <-. injection E2 as <-. reflexivity.
  - discriminate E.
  - discriminate E.
Defined.

(** A failed call has changed the critical value: when a later parameter
    is missing, and when the critical value itself is negative. *)
Lemma configure_failure_retains_read_values :
  let missing : gmap string XmlRpcValue :=
    {[ "critical_value" := TypeDouble (1 # 2) ]} in
  let negative : gmap string XmlRpcValue :=
    {[ "critical_value" := TypeDouble (-1 # 1) ]} in
  criticalValue_ StepFilter_new = 3 # 10 /\
  fst (configure missing StepFilter_new) = false /\
  criticalValue_ (snd (configure missing StepFilter_new)) = 1 # 2 /\
  ~ (1 # 2 == 3 # 10)%Q /\
  fst (configure negative StepFilter_new) = false /\
  criticalValue_ (snd (configure negative StepFilter_new)) = -1 # 1.
Proof.
  intros missing negative. repeat split; try reflexivity. discriminate.
Qed.

(** The row gains the output layer and keeps its elevation. *)
Lemma update_layers_witness :
  let f := exampleFilter 5 in
  let mapIn := rowMap [NaN; Val 0; Val 1] in
  exists mapOut, update f mapIn = Some mapOut /\
    dom (data_ mapOut) = dom (data_ mapIn) ∪ {[ "traversability_step" ]} /\
    data_ mapOut !! "elevation" = Some [NaN; Val 0; Val 1].
Proof.
  intros f mapIn.
  exists (default mapIn (update f mapIn)).
  assert (H : update f mapIn = Some (default mapIn (update f mapIn)))
    by (vm_compute; reflexivity).
  split; [exact H|].
  destruct (update_layers f mapIn _ ltac:(discriminate)
              ltac:(apply not_elem_of_dom; reflexivity) H)
    as (_ & _ & _ & Hdom & _ & Hval).
  split; [exact Hdom|]. rewrite Hval by discriminate. reflexivity.
Defined.

(** A [step_height] layer of the input is absent from the result, and a
    layer of the input that has the name of the output layer does not keep
    its values. *)
Lemma update_drops_and_overwrites_input_layers :
  let f := exampleFilter 5 in
  let mapA := squareGrid 1 2 {[ "elevation" := [Val 0; Val 1];
                               "step_height" := [Val 9; Val 9] ]} in
  let mapB := squareGrid 1 2 {[ "elevation" := [Val 0; Val 1];
                               "traversability_step" := [Val 7; Val 7] ]} in
  data_ mapA !! "step_height" = Some [Val 9; Val 9] /\
  option_map (fun mapOut => data_ mapOut !! "step_height") (update f mapA)
    = Some None /\
  data_ mapB !! "traversability_step" = Some [Val 7; Val 7] /\
  option_map (fun mapOut => data_ mapOut !! "traversability_step")
    (update f mapB) = Some (Some [Val (3 # 3); Val (3 # 3)]) /\
  ~ (3 # 3 == 7)%Q.
Proof.
  intros f mapA mapB. repeat split; try reflexivity. discriminate.
Qed.

(** Critical value raised from 0.3 to 0.6 on a row with one step of 0.5. *)
Lemma output_monotone_in_criticalValue_witness :
  let f := exampleFilter 1 in
  let mapIn := rowMap [Val 0; Val (1 # 2)] in
  exists out1 out2,
    update f mapIn = Some out1 /\
    update (set_criticalValue f (6 # 10)) mapIn = Some out2 /\
    forall c, (c < size_ mapIn)%nat ->
      (at_ out1 (type_ f) c = Some NaN /\ at_ out2 (type_ f) c = Some NaN) \/
      exists q1 q2,
        at_ out1 (type_ f) c = Some (Val q1) /\
        at_ out2 (type_ f) c = Some (Val q2) /\
        (q1 <= q2)%Q.
Proof.
  intros f mapIn.
  apply (output_monotone_in_criticalValue f (6 # 10) mapIn).
  - simpl. lra.
  - simpl. lia.
  - discriminate.
  - vm_compute. eauto.
Defined.

(** Raising the critical value from 0.3 to 0.6 moves the output of a cell
    from 0 to 1. *)
Lemma raising_criticalValue_raises_cost :
  let f := exampleFilter 1 in
  let mapIn := rowMap [Val 0; Val (1 # 2)] in
  (criticalValue_ f < 6 # 10)%Q /\
  outputAt f mapIn 0 = Some (Val 0) /\
  exists q, outputAt (set_criticalValue f (6 # 10)) mapIn 0 = Some (Val q) /\
            (q == 1)%Q.
Proof.
  intros f mapIn. split; [reflexivity|]. split; [reflexivity|].
  eexists. split; [vm_compute; reflexivity|reflexivity].
Qed.



(** * Further properties of [update] and [configure] *)

(** ** Rasters without a step *)

Lemma forCells_unchanged body cells m :
  (forall c, c ∈ cells -> body m c = Some m) ->
  forCells body cells m = Some m.
Proof.
  induction cells as [|c cells IH]; intros H; simpl; [reflexivity|].
  rewrite (H c) by left. apply IH. intros c' Hc'. apply H. now right.
Qed.

Lemma firstWindow_flat m height cells : forall sm0,
  is_Some (data_ m !! "elevation") ->
  (0 <= sm0)%Q ->
  (forall c' e, c' ∈ cells -> at_ m "elevation" c' = Some (Val e) ->
     (e == height)%Q) ->
  firstWindow m height cells sm0 = Some sm0.
Proof.
  induction cells as [|c cells IH]; intros sm0 He H0 Hflat;
    cbn [firstWindow]; [reflexivity|].
  assert (Hrest : forall c' e, c' ∈ cells ->
                    at_ m "elevation" c' = Some (Val e) -> (e == height)%Q).
  { intros c' e Hin. apply Hflat. now right. }
  destruct (at_ m "elevation" c) as [[|e]|] eqn:Hc.
  - now apply IH.
  - assert (Heq : (e == height)%Q) by (apply (Hflat c); [left|exact Hc]).
    assert (Hz : (Qabs (height - e) == 0)%Q).
    { assert (Hd : (height - e == 0)%Q) by (rewrite Heq; ring).
      rewrite (Qabs_wd _ _ Hd). reflexivity. }
    destruct (Qlt_le_dec sm0 (Qabs (height - e))); [lra|].
    now apply IH.
  - exfalso. unfold at_ in Hc. destruct He as [l Hl]. rewrite Hl in Hc.
    discriminate.
Qed.

Lemma secondWindow_no_sample crit m cells : forall s,
  (forall c, c ∈ cells -> at_ m "step_height" c = Some NaN) ->
  secondWindow crit m cells s = Some s.
Proof.
  induction cells as [|c cells IH]; intros s H; cbn [secondWindow];
    [reflexivity|].
  rewrite (H c) by left. simpl. apply IH. intros c' Hc'. apply H. now right.
Qed.

Lemma at_prepare_step_height f mapIn c :
  at_ (prepare f mapIn) "step_height" c = Some NaN.
Proof.
  unfold at_. rewrite prepare_step_height.
  now rewrite default_replicate_NaN.
Qed.

(** The two loops leave a prepared map as it is when no valid cell has a
    valid cell of another elevation anywhere. *)
Lemma update_flat f mapIn :
  is_Some (data_ (prepare f mapIn) !! "elevation") ->
  (forall c c' h e,
     at_ (prepare f mapIn) "elevation" c = Some (Val h) ->
     at_ (prepare f mapIn) "elevation" c' = Some (Val e) -> (e == h)%Q) ->
  update f mapIn = Some (erase (prepare f mapIn) "step_height").
Proof.
  intros He Hflat. unfold update, stepHeightPass, costPass.
  rewrite forCells_unchanged.
  - rewrite forCells_unchanged; [reflexivity|].
    intros c _. unfold costCell.
    rewrite secondWindow_no_sample
      by (intros; apply at_prepare_step_height).
    reflexivity.
  - intros c _. unfold stepHeightCell.
    destruct (at_ (prepare f mapIn) "elevation" c) as [[|h]|] eqn:Hc.
    + reflexivity.
    + rewrite (firstWindow_flat _ h _ 0 He); [|lra|].
      * destruct (Qlt_le_dec 0 0); [lra|reflexivity].
      * intros c' e _ He'. eapply Hflat; eassumption.
    + exfalso. unfold at_ in Hc. destruct He as [l Hl]. rewrite Hl in Hc.
      discriminate.
Qed.

(** X1.  A raster whose valid cells all have the same elevation: [update]
    returns whatever the critical value and the critical cell number are
    (the quotient is never computed), no [step_height] is written and every
    cell of the output layer is unset. *)
Theorem flat_raster_output_unset (f : StepFilter) (mapIn : GridMap) :
  is_Some (data_ (prepare f mapIn) !! "elevation") ->
  (forall c c' h e,
     at_ (prepare f mapIn) "elevation" c = Some (Val h) ->
     at_ (prepare f mapIn) "elevation" c' = Some (Val e) -> (e == h)%Q) ->
  type_ f <> "step_height" ->
  (forall c, stepHeightAt f mapIn c = Some NaN) /\
  exists mapOut, update f mapIn = Some mapOut /\
    forall c, at_ mapOut (type_ f) c = Some NaN.
Proof.
  intros He Hflat Hne. split.
  - intros c. unfold stepHeightAt, stepHeightPass.
    rewrite forCells_unchanged; [apply at_prepare_step_height|].
    intros c0 _. unfold stepHeightCell.
    destruct (at_ (prepare f mapIn) "elevation" c0) as [[|h]|] eqn:Hc.
    + reflexivity.
    + rewrite (firstWindow_flat _ h _ 0 He); [|lra|].
      * destruct (Qlt_le_dec 0 0); [lra|reflexivity].
      * intros c' e _ He'. eapply Hflat; eassumption.
    + exfalso. unfold at_ in Hc. destruct He as [l Hl]. rewrite Hl in Hc.
      discriminate.
  - exists (erase (prepare f mapIn) "step_height").
    split; [now apply update_flat|].
    intros c. rewrite at_erase_ne by assumption.
    unfold at_. rewrite prepare_type by assumption.
    now rewrite default_replicate_NaN.
Qed.

(** X2.  An output layer named [elevation]: adding the output layer
    replaces the elevation of the input, so [update] returns a raster whose
    elevation layer is unset in every cell, whatever the input holds. *)
Theorem output_named_elevation_erases_it (f : StepFilter) (mapIn : GridMap) :
  type_ f = "elevation" ->
  exists mapOut, update f mapIn = Some mapOut /\
    data_ mapOut !! "elevation" = Some (replicate (size_ mapIn) NaN).
Proof.
  intros Ht.
  assert (Hel : data_ (prepare f mapIn) !! "elevation"
                = Some (replicate (size_ mapIn) NaN)).
  { rewrite <- Ht. apply prepare_type. rewrite Ht. discriminate. }
  exists (erase (prepare f mapIn) "step_height"). split.
  - apply update_flat; [rewrite Hel; eauto|].
    intros c c' h e Hc _. unfold at_ in Hc. rewrite Hel in Hc.
    rewrite default_replicate_NaN in Hc. discriminate.
  - unfold erase. simpl. rewrite lookup_delete_ne by discriminate.
    exact Hel.
Qed.

(** X3.  A raster without an elevation layer: [update] throws as soon as
    the raster has a cell, and returns (with nothing read) when the raster
    has no cell. *)
Theorem missing_elevation_throws (f : StepFilter) (mapIn : GridMap) :
  data_ mapIn !! "elevation" = None ->
  type_ f <> "elevation" ->
  (update f mapIn = None <-> size_ mapIn <> 0%nat).
Proof.
  intros Hmiss Hne.
  assert (Hel : forall c, at_ (prepare f mapIn) "elevation" c = None).
  { intros c. rewrite at_prepare_elevation by assumption.
    unfold at_. now rewrite Hmiss. }
  unfold update, stepHeightPass, costPass, GridMapIterator.
  change (size_ (prepare f mapIn)) with (size_ mapIn).
  destruct (size_ mapIn) as [|n] eqn:Hsz.
  - simpl. rewrite Hsz. simpl. split; [discriminate|congruence].
  - cbn [seq forCells]. unfold stepHeightCell at 1. rewrite Hel.
    split; [intros _; discriminate|reflexivity].
Qed.

(** ** Layers of the result, without conditions on the names *)

Lemma update_frames f mapIn mapOut :
  update f mapIn = Some mapOut ->
  exists m1 m2,
    frame "step_height" (prepare f mapIn) m1 /\
    frame (type_ f) m1 m2 /\
    mapOut = erase m2 "step_height".
Proof.
  unfold update. intros H.
  destruct (stepHeightPass f (prepare f mapIn)) as [m1|] eqn:E1;
    [|discriminate].
  destruct (costPass f m1) as [m2|] eqn:E2; [|discriminate].
  inversion H; subst mapOut.
  exists m1, m2. split; [|split; [|reflexivity]].
  - exact (forCells_frame "step_height" _ (stepHeightCell_frame f) _ _ _ E1).
  - exact (forCells_frame (type_ f) _ (costCell_frame f) _ _ _ E2).
Qed.

(** X4.  Whatever the layers of the input and the name of the output layer
    are, the raster that [update] returns has the geometry of the input,
    its layers are those of the input and the output layer, less
    [step_height], and every layer other than these two holds the values
    of the input. *)
Theorem update_frame_any_names (f : StepFilter) (mapIn mapOut : GridMap) :
  update f mapIn = Some mapOut ->
  size_ mapOut = size_ mapIn /\ position_ mapOut = position_ mapIn /\
  circle_ mapOut = circle_ mapIn /\
  dom (data_ mapOut)
    = (dom (data_ mapIn) ∪ {[ type_ f ]}) ∖ {[ "step_height" ]} /\
  forall K, K <> type_ f -> K <> "step_height" ->
    data_ mapOut !! K = data_ mapIn !! K.
Proof.
  intros H.
  destruct (update_frames _ _ _ H)
    as (m1 & m2 & (A1 & A2 & A3 & A4 & A5) & (B1 & B2 & B3 & B4 & B5) & ->).
  simpl in A1, A2, A3.
  split; [simpl; congruence|]. split; [simpl; congruence|].
  split; [simpl; congruence|]. split.
  - unfold erase. simpl. rewrite dom_delete_L, B4, A4.
    unfold prepare, add. simpl. rewrite !dom_insert_L. set_solver.
  - intros K HK HK'. unfold erase. simpl.
    rewrite lookup_delete_ne by congruence.
    rewrite B5, A5 by assumption. now apply prepare_other.
Qed.

(** X5.  Feeding the result back: when the input has no [step_height]
    layer and the output layer is not named [step_height], [update] on its
    own result returns that result again. *)
Theorem update_idempotent (f : StepFilter) (mapIn mapOut : GridMap) :
  type_ f <> "step_height" ->
  "step_height" ∉ dom (data_ mapIn) ->
  update f mapIn = Some mapOut ->
  update f mapOut = Some mapOut.
Proof.
  intros Hne Hfresh H.
  destruct (update_frames _ _ _ H)
    as (m1 & m2 & (A1 & A2 & A3 & A4 & A5) & (B1 & B2 & B3 & B4 & B5) & Eo).
  simpl in A1, A2, A3.
  assert (Hprep : prepare f mapOut = prepare f mapIn).
  { subst mapOut. unfold prepare, add, setData, erase. simpl.
    rewrite B1, A1, B2, A2, B3, A3. f_equal.
    apply map_eq. intros K.
    destruct (decide (K = "step_height")) as [->|HK].
    { now rewrite !lookup_insert_eq. }
    rewrite !(lookup_insert_ne _ "step_height") by congruence.
    destruct (decide (K = type_ f)) as [->|HK'].
    { now rewrite !lookup_insert_eq. }
    rewrite !(lookup_insert_ne _ (type_ f)) by congruence.
    rewrite lookup_delete_ne by congruence.
    rewrite B5, A5 by assumption. now apply prepare_other. }
  unfold update in *. rewrite Hprep. exact H.
Qed.

(** ** Configuration *)

(** X6.  Whether [configure] succeeds depends on the parameter source
    only, not on what the filter held before; and after a success so does
    the whole configuration. *)
Theorem configure_ignores_previous_state (params : gmap string XmlRpcValue)
    (f g : StepFilter) :
  fst (configure params f) = fst (configure params g) /\
  (fst (configure params f) = true ->
   snd (configure params f) = snd (configure params g)).
Proof.
  unfold configure.
  destruct (getParamDouble params "critical_value") as [cv|];
    [|split; [reflexivity|discriminate]].
  cbv zeta. simpl criticalValue_.
  destruct (Qlt_le_dec cv 0); [split; [reflexivity|discriminate]|].
  destruct (getParamDouble params "first_window_radius") as [r1|];
    [|split; [reflexivity|discriminate]].
  simpl firstWindowRadius_.
  destruct (Qlt_le_dec r1 0); [split; [reflexivity|discriminate]|].
  destruct (getParamDouble params "second_window_radius") as [r2|];
    [|split; [reflexivity|discriminate]].
  simpl secondWindowRadius_.
  destruct (Qlt_le_dec r2 0); [split; [reflexivity|discriminate]|].
  destruct (getParamInt params "critical_cell_number") as [n|];
    [|split; [reflexivity|discriminate]].
  simpl nCellCritical_.
  destruct (n <=? 0)%Z; [split; [reflexivity|discriminate]|].
  destruct (getParamString params "map_type") as [t|];
    [|split; [reflexivity|discriminate]].
  split; reflexivity.
Qed.

(** ** The values the second loop can write *)

Lemma secondWindow_critical crit m cells : forall s0 s,
  secondWindow crit m cells s0 = Some s ->
  ((0 < nCells s0)%Z -> (crit < stepMax s0)%Q) ->
  (0 < nCells s)%Z -> (crit < stepMax s)%Q.
Proof.
  induction cells as [|c cells IH]; intros s0 s H Hinv;
    cbn [secondWindow] in H.
  - inversion H; subst. exact Hinv.
  - destruct (at_ m "step_height" c) as [v|]; [|discriminate].
    apply (IH _ _ H). destruct v as [|x]; [exact Hinv|]. cbn [scanStep].
    destruct (Qlt_le_dec (stepMax s0) x) as [Hlt|_]; simpl; [|exact Hinv].
    destruct (Qlt_le_dec crit x) as [Hc|_]; [intros _; exact Hc|].
    intros Hpos. specialize (Hinv Hpos). lra.
Qed.

Lemma secondWindow_nCells_le crit m cells : forall s0 s,
  secondWindow crit m cells s0 = Some s ->
  (nCells s <= nCells s0 + Z.of_nat (length cells))%Z.
Proof.
  induction cells as [|c cells IH]; intros s0 s H; cbn [secondWindow] in H.
  - inversion H; subst. simpl. lia.
  - destruct (at_ m "step_height" c) as [v|]; [|discriminate].
    apply IH in H.
    assert (Hstep : (nCells (scanStep crit s0 v) <= nCells s0 + 1)%Z).
    { destruct v as [|x]; simpl; [lia|].
      destruct (Qlt_le_dec (stepMax s0) x); simpl; [|lia].
      destruct (Qlt_le_dec crit x); lia. }
    simpl length. lia.
Qed.

(** The written value, by the counter: 1 below the critical cell number,
    0 from it on. *)
Lemma cost_by_counter f crit m cells s :
  crit = criticalValue_ f ->
  (0 < crit)%Q -> (0 < nCellCritical_ f)%Z ->
  secondWindow crit m cells scan0 = Some s ->
  ((nCells s < nCellCritical_ f)%Z /\ (cost f s == 1)%Q) \/
  ((nCellCritical_ f <= nCells s)%Z /\ cost f s = 0%Q).
Proof.
  intros -> Hc Hn Hs.
  destruct (scan_from_scan0 _ _ _ _ Hs) as [Hsm Hnc].
  destruct (Z.lt_ge_cases (nCells s) (nCellCritical_ f)) as [Hlt|Hge].
  - left. split; [exact Hlt|].
    pose proof (dampened_small f s Hsm (conj Hnc Hlt)) as Hd.
    unfold cost.
    destruct (Qlt_le_dec (dampened f s) (criticalValue_ f)); [|lra].
    rewrite Hd. unfold Qdiv. lra.
  - right. split; [exact Hge|].
    assert (Hcrit : (criticalValue_ f < stepMax s)%Q).
    { apply (secondWindow_critical _ _ _ _ _ Hs); simpl; lia. }
    assert (Hq : (1 <= nCells s ÷ nCellCritical_ f)%Z).
    { apply Z.quot_le_lower_bound; lia. }
    assert (Hk : (1 <= inject_Z (nCells s ÷ nCellCritical_ f))%Q).
    { change 1%Q with (inject_Z 1). now rewrite <- Zle_Qle. }
    assert (Hd : (stepMax s <= dampened f s)%Q).
    { unfold dampened, std_min.
      destruct (Qlt_le_dec _ _) as [Hlt|_]; [|lra].
      exfalso.
      assert (Hm : (1 * stepMax s
                    <= inject_Z (nCells s ÷ nCellCritical_ f) * stepMax s)%Q)
        by (apply Qmult_le_compat_r; assumption).
      lra. }
    unfold cost.
    destruct (Qlt_le_dec (dampened f s) (criticalValue_ f)); [lra|].
    reflexivity.
Qed.

(** X7.  With a positive critical value and a positive critical cell
    number the output is never strictly between 0 and 1: a cell of the
    output layer is unset when its second window has no valid
    [step_height], 1 when the counter of that window is below the critical
    cell number, and 0 when the counter reaches it. *)
Theorem output_is_zero_or_one (f : StepFilter) (mapIn : GridMap) :
  (0 < criticalValue_ f)%Q -> (0 < nCellCritical_ f)%Z ->
  type_ f <> "step_height" ->
  is_Some (data_ (prepare f mapIn) !! "elevation") ->
  exists m1, stepHeightPass f (prepare f mapIn) = Some m1 /\
    forall c, (c < size_ mapIn)%nat ->
      exists s,
        secondWindow (criticalValue_ f) m1
          (CircleIterator m1 (getPosition m1 c) (secondWindowRadius_ f))
          scan0 = Some s /\
        ((sawValid s = false /\ outputAt f mapIn c = Some NaN) \/
         (sawValid s = true /\ (nCells s < nCellCritical_ f)%Z /\
          exists q, outputAt f mapIn c = Some (Val q) /\ (q == 1)%Q) \/
         (sawValid s = true /\ (nCellCritical_ f <= nCells s)%Z /\
          outputAt f mapIn c = Some (Val 0))).
Proof.
  intros Hc Hn Hne He.
  destruct (update_spec f mapIn Hne ltac:(lia) He)
    as (m1 & m2 & E1 & E2 & EU & R1 & R2 & V1 & V2).
  exists m1. split; [exact E1|]. intros c Hlt.
  assert (Hsh : is_Some (data_ m1 !! "step_height")).
  { destruct R1 as (_ & _ & _ & _ & l1 & Hl1 & _). eauto. }
  destruct (secondWindow_total (criticalValue_ f) m1
              (CircleIterator m1 (getPosition m1 c) (secondWindowRadius_ f))
              scan0 Hsh) as [s Hs].
  exists s. split; [exact Hs|].
  unfold outputAt. rewrite EU, (V2 c Hlt). unfold costDec.
  rewrite Hs, (written_cost_scan f _ _ _ _ Hn Hs).
  destruct (sawValid s); [right|left; split; reflexivity].
  destruct (cost_by_counter f _ _ _ _ eq_refl Hc Hn Hs)
    as [[Hlow Hq]|[Hhigh Hq]].
  - left. split; [reflexivity|]. split; [exact Hlow|]. eauto.
  - right. split; [reflexivity|]. split; [exact Hhigh|]. now rewrite Hq.
Qed.

(** X8.  The counter of a window scan lies between 0 and the number of
    cells of the window; so with a positive critical value and a critical
    cell number above the size of the window the written value is 1. *)
Theorem nCells_bounded_by_window (f : StepFilter) (m : GridMap)
    (cells : list nat) (s : scan) :
  secondWindow (criticalValue_ f) m cells scan0 = Some s ->
  (0 <= nCells s <= Z.of_nat (length cells))%Z /\
  ((0 < criticalValue_ f)%Q ->
   (Z.of_nat (length cells) < nCellCritical_ f)%Z ->
   (cost f s == 1)%Q).
Proof.
  intros Hs.
  destruct (scan_from_scan0 _ _ _ _ Hs) as [_ Hnc].
  pose proof (secondWindow_nCells_le _ _ _ _ _ Hs) as Hle. simpl in Hle.
  split; [lia|]. intros Hc Hn.
  destruct (cost_by_counter f _ _ _ _ eq_refl Hc ltac:(lia) Hs)
    as [[_ Hq]|[Hhigh _]]; [exact Hq|lia].
Qed.

(** ** Which cells get a step height *)

(** X9.  In [update], a cell with valid elevation gets a valid
    [step_height] exactly when its first window holds a valid cell of
    another elevation. *)
Theorem step_height_valid_iff_window_not_flat (f : StepFilter)
    (mapIn : GridMap) (c : nat) (height : Q) :
  (c < size_ mapIn)%nat ->
  at_ (prepare f mapIn) "elevation" c = Some (Val height) ->
  ((exists x, stepHeightAt f mapIn c = Some (Val x)) <->
   exists c' e,
     c' ∈ CircleIterator (prepare f mapIn) (getPosition (prepare f mapIn) c)
            (firstWindowRadius_ f) /\
     at_ (prepare f mapIn) "elevation" c' = Some (Val e) /\
     ~ (e == height)%Q).
Proof.
  intros Hlt Hc.
  assert (He : is_Some (data_ (prepare f mapIn) !! "elevation")).
  { unfold at_ in Hc.
    destruct (data_ (prepare f mapIn) !! "elevation"); [eauto|discriminate]. }
  destruct (stepHeightPass_spec f (prepare f mapIn) _ He
              (prepare_step_height f mapIn))
    as (m1 & E1 & _ & V1); [apply length_replicate|].
  unfold stepHeightAt. rewrite E1, (V1 c Hlt), at_prepare_step_height.
  unfold stepHeightDec. rewrite Hc.
  destruct (firstWindow_total (prepare f mapIn) height
              (CircleIterator (prepare f mapIn)
                 (getPosition (prepare f mapIn) c) (firstWindowRadius_ f))
              0 He) as [sm Hsm].
  rewrite Hsm.
  destruct (firstWindow_max _ _ _ _ _ Hsm) as (_ & Hub & Hatt).
  destruct (Qlt_le_dec 0 sm) as [Hpos|Hzero]; split.
  - intros _. destruct Hatt as [->|(c' & e & Hin & He' & Heq)]; [lra|].
    exists c', e. split; [exact Hin|]. split; [exact He'|].
    intros Hee. rewrite Heq in Hpos.
    assert (Hd : (height - e == 0)%Q) by (rewrite Hee; ring).
    assert (Hz : (Qabs (height - e) == 0)%Q)
      by (rewrite (Qabs_wd _ _ Hd); reflexivity).
    lra.
  - intros _. eauto.
  - intros [x Hx]. discriminate.
  - intros (c' & e & Hin & He' & Hne). exfalso.
    specialize (Hub c' e Hin He').
    apply Hne. revert Hub. apply Qabs_case; intros; lra.
Qed.

(** ** What the output depends on *)

Lemma scaled_lt k a b a' b' :
  (0 < k)%Q -> (a' == k * a)%Q -> (b' == k * b)%Q ->
  ((a < b)%Q <-> (a' < b')%Q).
Proof.
  intros Hk Ha Hb. rewrite Ha, Hb. symmetry. now apply Qmult_lt_l.
Qed.

Lemma scaledSteps_prepare k f f' m m' :
  type_ f <> "elevation" -> type_ f' = type_ f ->
  scaledSteps k m m' -> scaledSteps k (prepare f m) (prepare f' m').
Proof.
  intros Hne Ht (H1 & H2 & H3 & H4 & H5).
  assert (Hne' : type_ f' <> "elevation") by congruence.
  split; [exact H1|]. split; [exact H2|]. split; [exact H3|]. split.
  - intros c. rewrite !at_prepare_elevation by assumption. apply H4.
  - intros c c' h e h' e'. rewrite !at_prepare_elevation by assumption.
    apply H5.
Qed.

Lemma firstWindow_scaled k P P' c h h' cells :
  (0 < k)%Q -> scaledSteps k P P' ->
  at_ P "elevation" c = Some (Val h) ->
  at_ P' "elevation" c = Some (Val h') ->
  forall sm sm', (sm' == k * sm)%Q ->
    exists a a', firstWindow P h cells sm = Some a /\
      firstWindow P' h' cells sm' = Some a' /\ (a' == k * a)%Q.
Proof.
  intros Hk (_ & _ & _ & Hval & Hdiff) Hc Hc'.
  induction cells as [|c0 cells IH]; intros sm sm' Hsm; cbn [firstWindow].
  - exists sm, sm'. auto.
  - specialize (Hval c0).
    destruct (at_ P "elevation" c0) as [[|e]|] eqn:E;
      destruct (at_ P' "elevation" c0) as [[|e']|] eqn:E';
      try contradiction.
    + now apply IH.
    + apply IH.
      pose proof (Hdiff c c0 h e h' e' Hc E Hc' E') as Hd.
      pose proof (scaled_lt k _ _ _ _ Hk Hsm Hd) as Hlt.
      destruct (Qlt_le_dec sm (Qabs (h - e))),
               (Qlt_le_dec sm' (Qabs (h' - e'))); try assumption.
      * exfalso. apply Hlt in q. lra.
      * exfalso. apply Hlt in q0. lra.
Qed.

Lemma stepHeightDec_scaled k f f' P P' c :
  (0 < k)%Q -> firstWindowRadius_ f' = firstWindowRadius_ f ->
  scaledSteps k P P' ->
  vscaled k (match stepHeightDec f P c with Some v => v | None => NaN end)
            (match stepHeightDec f' P' c with Some v => v | None => NaN end).
Proof.
  intros Hk Hr Hs. pose proof Hs as (_ & Hp & Hci & Hval & _).
  unfold stepHeightDec, getPosition, CircleIterator. rewrite Hp, Hci, Hr.
  specialize (Hval c).
  destruct (at_ P "elevation" c) as [[|h]|] eqn:E;
    destruct (at_ P' "elevation" c) as [[|h']|] eqn:E';
    try contradiction; [exact I|].
  destruct (firstWindow_scaled k P P' c h h'
              (circle_ P (position_ P c) (firstWindowRadius_ f))
              Hk Hs E E' 0 0 ltac:(ring))
    as (a & a' & Ha & Ha' & Haa).
  rewrite Ha, Ha'.
  assert (Hlt : (0 < a)%Q <-> (0 < a')%Q).
  { apply (scaled_lt k); [exact Hk|ring|exact Haa]. }
  destruct (Qlt_le_dec 0 a) as [H0|H0], (Qlt_le_dec 0 a') as [H0'|H0'];
    simpl; try exact Haa; try exact I.
  - apply Hlt in H0. lra.
  - apply Hlt in H0'. lra.
Qed.

Lemma scanStep_scaled k crit crit' s s' v v' :
  (0 < k)%Q -> (crit' == k * crit)%Q ->
  scanScaled k s s' -> vscaled k v v' ->
  scanScaled k (scanStep crit s v) (scanStep crit' s' v').
Proof.
  intros Hk Hc (Hn & Hv & Hm) Hvv.
  destruct v as [|x], v' as [|x']; try contradiction.
  - repeat split; assumption.
  - simpl in Hvv. cbn [scanStep].
    pose proof (scaled_lt k _ _ _ _ Hk Hm Hvv) as Hlt.
    pose proof (scaled_lt k _ _ _ _ Hk Hc Hvv) as Hlc.
    destruct (Qlt_le_dec (stepMax s) x) as [H1|H1],
             (Qlt_le_dec (stepMax s') x') as [H1'|H1'].
    + repeat split; simpl; [|exact Hvv].
      destruct (Qlt_le_dec crit x) as [H2|H2],
               (Qlt_le_dec crit' x') as [H2'|H2']; try lia.
      * apply Hlc in H2. lra.
      * apply Hlc in H2'. lra.
    + apply Hlt in H1. lra.
    + apply Hlt in H1'. lra.
    + repeat split; simpl; assumption.
Qed.

Lemma secondWindow_scaled k crit crit' m m' cells :
  (0 < k)%Q -> (crit' == k * crit)%Q ->
  (forall c, exists v v', at_ m "step_height" c = Some v /\
     at_ m' "step_height" c = Some v' /\ vscaled k v v') ->
  forall s s', scanScaled k s s' ->
    exists t t', secondWindow crit m cells s = Some t /\
      secondWindow crit' m' cells s' = Some t' /\ scanScaled k t t'.
Proof.
  intros Hk Hc Hall. induction cells as [|c cells IH]; intros s s' Hs;
    cbn [secondWindow].
  - exists s, s'. auto.
  - destruct (Hall c) as (v & v' & -> & -> & Hv).
    apply IH. now apply scanStep_scaled.
Qed.

Lemma dampened_scaled k f f' s s' :
  (0 < k)%Q -> scaledFilter k f f' -> scanScaled k s s' ->
  (dampened f' s' == k * dampened f s)%Q.
Proof.
  intros Hk (_ & _ & Hnc & _ & Hc) (Hn & _ & Hm).
  unfold dampened, std_min. rewrite Hnc, <- Hn.
  set (q := inject_Z (nCells s ÷ nCellCritical_ f)).
  assert (Hq : (q * stepMax s' == k * (q * stepMax s))%Q)
    by (rewrite Hm; ring).
  pose proof (scaled_lt k _ _ _ _ Hk Hq Hm) as Hlt.
  destruct (Qlt_le_dec (q * stepMax s) (stepMax s)) as [H1|H1],
           (Qlt_le_dec (q * stepMax s') (stepMax s')) as [H1'|H1'];
    try assumption.
  - apply Hlt in H1. lra.
  - apply Hlt in H1'. lra.
Qed.

Lemma cost_scaled k f f' s s' :
  (0 < k)%Q -> scaledFilter k f f' -> scanScaled k s s' ->
  (cost f s == cost f' s')%Q.
Proof.
  intros Hk Hf Hs.
  pose proof (dampened_scaled k f f' s s' Hk Hf Hs) as Hd.
  destruct Hf as (_ & _ & Hnc & _ & Hc).
  pose proof (scaled_lt k _ _ _ _ Hk Hd Hc) as Hlt.
  unfold cost.
  destruct (Qlt_le_dec (dampened f s) (criticalValue_ f)) as [H1|H1],
           (Qlt_le_dec (dampened f' s') (criticalValue_ f')) as [H1'|H1'].
  - rewrite Hd, Hc.
    destruct (Qeq_dec (criticalValue_ f) 0) as [Hz|Hnz].
    + rewrite Hz. unfold Qdiv.
      rewrite (Qmult_0_r k). change (/ 0)%Q with 0%Q. ring.
    + field. split; [exact Hnz|lra].
  - apply Hlt in H1. lra.
  - apply Hlt in H1'. lra.
  - reflexivity.
Qed.

Lemma written_scaled k f f' s s' :
  (0 < k)%Q -> scaledFilter k f f' -> scanScaled k s s' ->
  veq (written f s) (written f' s').
Proof.
  intros Hk Hf Hs.
  pose proof (dampened_scaled k f f' s s' Hk Hf Hs) as Hd.
  pose proof (cost_scaled k f f' s s' Hk Hf Hs) as Hcost.
  destruct Hf as (_ & _ & _ & _ & Hc).
  pose proof (scaled_lt k _ _ _ _ Hk Hd Hc) as Hlt.
  assert (Hzero : (criticalValue_ f == 0)%Q <-> (criticalValue_ f' == 0)%Q).
  { split; intros Hz.
    - rewrite Hc, Hz. ring.
    - rewrite Hz in Hc.
      destruct (Qlt_le_dec 0 (criticalValue_ f)) as [Hp|Hp].
      + assert (0 < k * criticalValue_ f)%Q
          by (apply Qmult_lt_0_compat; assumption).
        lra.
      + destruct (Qlt_le_dec (criticalValue_ f) 0) as [Hm|Hm]; [|lra].
        assert (0 < k * - criticalValue_ f)%Q
          by (apply Qmult_lt_0_compat; lra).
        lra. }
  unfold written.
  destruct (Qlt_le_dec (dampened f s) (criticalValue_ f)) as [H1|H1],
           (Qlt_le_dec (dampened f' s') (criticalValue_ f')) as [H1'|H1'].
  - destruct (Qeq_dec (criticalValue_ f) 0) as [Hz|Hz],
             (Qeq_dec (criticalValue_ f') 0) as [Hz'|Hz'];
      try exact I; try exact Hcost.
    + apply Hzero in Hz. contradiction.
    + apply Hzero in Hz'. contradiction.
  - apply Hlt in H1. lra.
  - apply Hlt in H1'. lra.
  - exact Hcost.
Qed.

(** Two runs of [update] on rasters with proportional steps, with
    critical values in the same proportion, write the same output. *)
Lemma update_scaled k f f' m m' :
  (0 < k)%Q -> scaledFilter k f f' ->
  type_ f <> "step_height" -> type_ f <> "elevation" ->
  nCellCritical_ f <> 0%Z ->
  scaledSteps k m m' ->
  exists mapOut mapOut',
    update f m = Some mapOut /\ update f' m' = Some mapOut' /\
    forall c, (c < size_ m)%nat ->
      exists v v', at_ mapOut (type_ f) c = Some v /\
        at_ mapOut' (type_ f) c = Some v' /\ veq v v'.
Proof.
  intros Hk Hf Hne Hne' Hn Hsame.
  pose proof Hf as (Hr1 & Hr2 & Hnc & Ht & Hcv).
  pose proof (scaledSteps_prepare k f f' m m' Hne' Ht Hsame) as HP.
  pose proof Hsame as (Hsz & Hp & Hci & Hval & _).
  assert (He : is_Some (data_ (prepare f m) !! "elevation") /\
               is_Some (data_ (prepare f' m') !! "elevation")).
  { destruct HP as (_ & _ & _ & Hv & _). specialize (Hv 0%nat).
    unfold at_ in Hv.
    destruct (data_ (prepare f m) !! "elevation") as [l|];
      [|contradiction].
    destruct (data_ (prepare f' m') !! "elevation") as [l'|];
      [split; eauto|].
    destruct (default NaN (l !! 0%nat)); contradiction. }
  destruct He as [He He'].
  destruct (update_spec f m Hne Hn He)
    as (m1 & m2 & E1 & E2 & EU & R1 & R2 & V1 & V2).
  destruct (update_spec f' m' ltac:(congruence) ltac:(congruence) He')
    as (m1' & m2' & E1' & E2' & EU' & R1' & R2' & V1' & V2').
  exists (erase m2 "step_height"), (erase m2' "step_height").
  split; [exact EU|]. split; [exact EU'|].
  assert (Hall : forall c, exists v v', at_ m1 "step_height" c = Some v /\
                   at_ m1' "step_height" c = Some v' /\ vscaled k v v').
  { intros c. destruct (Nat.lt_ge_cases c (size_ m)) as [Hlt|Hge].
    - rewrite (V1 c Hlt), (V1' c ltac:(rewrite Hsz; exact Hlt)).
      eexists _, _. split; [reflexivity|]. split; [reflexivity|].
      now apply stepHeightDec_scaled.
    - destruct R1 as (_ & _ & _ & _ & l1 & Hl1 & Hlen1).
      destruct R1' as (_ & _ & _ & _ & l1' & Hl1' & Hlen1').
      simpl in Hlen1, Hlen1'.
      exists NaN, NaN. unfold at_. rewrite Hl1, Hl1'.
      rewrite !lookup_ge_None_2 by lia.
      split; [reflexivity|]. split; [reflexivity|exact I]. }
  intros c Hlt.
  pose proof (V2' c ltac:(rewrite Hsz; exact Hlt)) as V2c. rewrite Ht in V2c.
  rewrite (V2 c Hlt), V2c.
  eexists _, _. split; [reflexivity|]. split; [reflexivity|].
  unfold costDec.
  assert (Hgeo : CircleIterator m1' (getPosition m1' c)
                   (secondWindowRadius_ f')
                 = CircleIterator m1 (getPosition m1 c)
                     (secondWindowRadius_ f)).
  { destruct R1 as (_ & Hp1 & Hc1 & _), R1' as (_ & Hp1' & Hc1' & _).
    simpl in Hp1, Hc1, Hp1', Hc1'.
    unfold CircleIterator, getPosition.
    now rewrite Hp1, Hc1, Hp1', Hc1', Hp, Hci, Hr2. }
  rewrite Hgeo.
  destruct (secondWindow_scaled k (criticalValue_ f) (criticalValue_ f')
              m1 m1'
              (CircleIterator m1 (getPosition m1 c) (secondWindowRadius_ f))
              Hk Hcv Hall scan0 scan0)
    as (t & t' & -> & -> & Hs).
  { split; [reflexivity|]. split; [reflexivity|]. simpl. ring. }
  pose proof Hs as (_ & Hv & _). rewrite <- Hv.
  destruct (sawValid t); [|exact I].
  now apply (written_scaled k).
Qed.

(** X10.  The output depends on the elevation only through the steps
    between cells: two input rasters of the same geometry whose elevation
    layers are valid in the same cells and have the same absolute
    difference between any two valid cells (a raster and the same raster
    lifted or mirrored, or with other layers) get the same output, cell by
    cell. *)
Theorem output_depends_on_steps_only (f : StepFilter) (m m' : GridMap) :
  type_ f <> "step_height" -> type_ f <> "elevation" ->
  nCellCritical_ f <> 0%Z ->
  sameSteps m m' ->
  exists mapOut mapOut',
    update f m = Some mapOut /\ update f m' = Some mapOut' /\
    forall c, (c < size_ m)%nat ->
      exists v v', at_ mapOut (type_ f) c = Some v /\
        at_ mapOut' (type_ f) c = Some v' /\ veq v v'.
Proof.
  intros Hne Hne' Hn Hsame.
  apply (update_scaled 1 f f m m'); try assumption; [reflexivity|].
  repeat split; try reflexivity. ring.
Qed.

(** X11.  The output does not depend on the unit of length: with every
    step between valid cells multiplied by [k > 0] and the critical value
    multiplied by [k] as well, the other parameters unchanged, [update]
    writes the same output, cell by cell. *)
Theorem output_invariant_under_rescaling (k : Q) (f f' : StepFilter)
    (m m' : GridMap) :
  (0 < k)%Q -> scaledFilter k f f' ->
  type_ f <> "step_height" -> type_ f <> "elevation" ->
  nCellCritical_ f <> 0%Z ->
  scaledSteps k m m' ->
  exists mapOut mapOut',
    update f m = Some mapOut /\ update f' m' = Some mapOut' /\
    forall c, (c < size_ m)%nat ->
      exists v v', at_ mapOut (type_ f) c = Some v /\
        at_ mapOut' (type_ f) c = Some v' /\ veq v v'.
Proof. apply update_scaled. Qed.

(** ** Examples for the further properties *)

Lemma flat_raster_output_unset_witness :
  let f := mkStepFilter (3 # 10) 1 1 0 "traversability_step" in
  exists mapOut, update f (rowMap [Val 2; NaN; Val 2]) = Some mapOut /\
    at_ mapOut "traversability_step" 0 = Some NaN.
Proof.
  intros f.
  destruct (flat_raster_output_unset f (rowMap [Val 2; NaN; Val 2]))
    as (_ & mapOut & E & H).
  - vm_compute. eauto.
  - assert (Hv : forall c x,
               at_ (prepare f (rowMap [Val 2; NaN; Val 2])) "elevation" c
               = Some (Val x) -> x = 2).
    { intros c x H.
      do 3 (destruct c as [|c];
            [vm_compute in H;
             first [discriminate H | injection H as <-; reflexivity]|]).
      vm_compute in H. discriminate H. }
    intros c c' h e Hc Hc'.
    rewrite (Hv _ _ Hc), (Hv _ _ Hc'). reflexivity.
  - discriminate.
  - exists mapOut. split; [exact E|apply H].
Defined.

Lemma output_named_elevation_erases_it_witness :
  exists mapOut, update elevationFilter (rowMap [Val 0; Val 1]) = Some mapOut /\
    data_ mapOut !! "elevation" = Some [NaN; NaN].
Proof.
  apply (output_named_elevation_erases_it elevationFilter
           (rowMap [Val 0; Val 1])).
  reflexivity.
Defined.

Lemma missing_elevation_throws_witness :
  update (exampleFilter 5) noElevationMap = None.
Proof.
  apply (missing_elevation_throws (exampleFilter 5) noElevationMap).
  - reflexivity.
  - discriminate.
  - discriminate.
Defined.

Lemma update_frame_any_names_witness :
  exists mapOut, update (exampleFilter 5) rowWithStepHeight = Some mapOut /\
    dom (data_ mapOut)
    = (dom (data_ rowWithStepHeight) ∪ {[ "traversability_step" ]})
        ∖ {[ "step_height" ]} /\
    data_ mapOut !! "elevation" = Some [Val 0; Val 1].
Proof.
  exists (default rowWithStepHeight (update (exampleFilter 5) rowWithStepHeight)).
  assert (H : update (exampleFilter 5) rowWithStepHeight
              = Some (default rowWithStepHeight
                        (update (exampleFilter 5) rowWithStepHeight)))
    by (vm_compute; reflexivity).
  split; [exact H|].
  destruct (update_frame_any_names _ _ _ H) as (_ & _ & _ & Hdom & Hval).
  split; [exact Hdom|]. rewrite Hval by discriminate. reflexivity.
Defined.

Lemma update_idempotent_witness :
  let f := exampleFilter 1 in
  let mapOut := default (rowMap [Val 0; Val 1])
                  (update f (rowMap [Val 0; Val 1])) in
  update f (rowMap [Val 0; Val 1]) = Some mapOut /\
  update f mapOut = Some mapOut.
Proof.
  intros f mapOut.
  assert (H : update f (rowMap [Val 0; Val 1]) = Some mapOut)
    by (vm_compute; reflexivity).
  split; [exact H|].
  apply (update_idempotent f (rowMap [Val 0; Val 1]) mapOut);
    [discriminate| |exact H].
  apply not_elem_of_dom. reflexivity.
Defined.

Lemma configure_ignores_previous_state_witness :
  fst (configure (exampleParams (3 # 10) 1 1 5 "traversability_step")
         StepFilter_new)
  = fst (configure (exampleParams (3 # 10) 1 1 5 "traversability_step")
           elevationFilter).
Proof.
  apply (proj1 (configure_ignores_previous_state
                  (exampleParams (3 # 10) 1 1 5 "traversability_step")
                  StepFilter_new elevationFilter)).
Defined.

Lemma output_is_zero_or_one_witness :
  let f := exampleFilter 1 in
  let mapIn := rowMap [NaN; Val 0; Val 1] in
  exists v, outputAt f mapIn 0 = Some v /\
    (v = NaN \/ v = Val 0 \/ exists q, v = Val q /\ (q == 1)%Q).
Proof.
  intros f mapIn.
  destruct (output_is_zero_or_one f mapIn) as (m1 & _ & H).
  - reflexivity.
  - reflexivity.
  - discriminate.
  - vm_compute. eauto.
  - destruct (H 0%nat) as (s & _ & [(_ & Ho)|[(_ & _ & q & Ho & Hq)|(_ & _ & Ho)]]).
    + simpl. lia.
    + eauto.
    + exists (Val q). split; [exact Ho|]. right. right. eauto.
    + eauto.
Defined.

Lemma nCells_bounded_by_window_witness :
  exists s, secondWindow (3 # 10) plateauRow [0%nat; 1%nat; 2%nat] scan0
            = Some s /\
    (0 <= nCells s <= 3)%Z /\ (cost (exampleFilter 5) s == 1)%Q.
Proof.
  exists {| nCells := 1; stepMax := 1 # 2; sawValid := true |}.
  assert (H : secondWindow (criticalValue_ (exampleFilter 5)) plateauRow
                [0%nat; 1%nat; 2%nat] scan0
              = Some {| nCells := 1; stepMax := 1 # 2; sawValid := true |})
    by reflexivity.
  split; [exact H|].
  destruct (nCells_bounded_by_window _ _ _ _ H) as [Hb Hc].
  split; [exact Hb|]. apply Hc; [reflexivity|simpl; lia].
Defined.

Lemma step_height_valid_iff_window_not_flat_witness :
  exists x, stepHeightAt (exampleFilter 5) (rowMap [NaN; Val 0; Val 1]) 1
            = Some (Val x).
Proof.
  apply (step_height_valid_iff_window_not_flat (exampleFilter 5)
           (rowMap [NaN; Val 0; Val 1]) 1 0).
  - simpl. lia.
  - reflexivity.
  - exists 2%nat, 1. split; [vm_compute; repeat constructor|].
    split; [reflexivity|discriminate].
Defined.

Lemma rows_scaledSteps k (a b a' b' : Q) :
  (Qabs (a' - b') == k * Qabs (a - b))%Q ->
  (Qabs (b' - a') == k * Qabs (b - a))%Q ->
  (Qabs (a' - a') == k * Qabs (a - a))%Q ->
  (Qabs (b' - b') == k * Qabs (b - b))%Q ->
  scaledSteps k (rowMap [NaN; Val a; Val b]) (rowMap [NaN; Val a'; Val b']).
Proof.
  intros Hab Hba Haa Hbb.
  split; [reflexivity|]. split; [reflexivity|]. split; [reflexivity|].
  split.
  - intros c. do 3 (destruct c as [|c]; [exact I|]). exact I.
  - intros c c' h e h' e' H1 H2 H3 H4.
    destruct c as [|[|[|c]]]; vm_compute in H1, H3; try discriminate H1;
      (destruct c' as [|[|[|c']]]; vm_compute in H2, H4;
       try discriminate H2);
      injection H1 as <-; injection H3 as <-;
      injection H2 as <-; injection H4 as <-; assumption.
Qed.

Lemma output_depends_on_steps_only_witness :
  let f := exampleFilter 1 in
  exists mapOut mapOut',
    update f (rowMap [NaN; Val 0; Val 1]) = Some mapOut /\
    update f (rowMap [NaN; Val 5; Val 6]) = Some mapOut' /\
    exists v v', at_ mapOut (type_ f) 1 = Some v /\
      at_ mapOut' (type_ f) 1 = Some v' /\ veq v v'.
Proof.
  intros f.
  destruct (output_depends_on_steps_only f (rowMap [NaN; Val 0; Val 1])
              (rowMap [NaN; Val 5; Val 6]))
    as (mapOut & mapOut' & E & E' & H).
  - discriminate.
  - discriminate.
  - discriminate.
  - apply rows_scaledSteps; reflexivity.
  - exists mapOut, mapOut'. split; [exact E|]. split; [exact E'|].
    apply (H 1%nat). simpl. lia.
Defined.

Lemma output_invariant_under_rescaling_witness :
  let f := exampleFilter 1 in
  let f' := mkStepFilter 30 1 1 1 "traversability_step" in
  exists mapOut mapOut',
    update f (rowMap [NaN; Val 0; Val 1]) = Some mapOut /\
    update f' (rowMap [NaN; Val 0; Val 100]) = Some mapOut' /\
    exists v v', at_ mapOut (type_ f) 1 = Some v /\
      at_ mapOut' (type_ f) 1 = Some v' /\ veq v v'.
Proof.
  intros f f'.
  destruct (output_invariant_under_rescaling 100 f f'
              (rowMap [NaN; Val 0; Val 1]) (rowMap [NaN; Val 0; Val 100]))
    as (mapOut & mapOut' & E & E' & H).
  - reflexivity.
  - repeat split; reflexivity.
  - discriminate.
  - discriminate.
  - discriminate.
  - apply rows_scaledSteps; reflexivity.
  - exists mapOut, mapOut'. split; [exact E|]. split; [exact E'|].
    apply (H 1%nat). simpl. lia.
Defined.
